(** * GambitHD2: the strategic analysis engine, embedded and verified

    This development embeds the analysis core of the repository
    ([js/gambit.js], the helpers [libPct] and [hoursLeft] of the
    application script, and the scout detector) as Rocq functions and
    proves or refutes the properties its specification states.

    Conventions of the embedding.

    - A JavaScript number is a value of [num]: [NaN], the two infinities,
      or a finite number.  Finite arithmetic is exact (rationals, [Q]);
      the special values follow IEEE 754 as JavaScript has them
      ([x / 0], [Infinity - Infinity], comparisons with [NaN], ...).
      Rounding to binary64 and the sign of zero are not modelled.
    - The numeric fields a planet always carries ([health], [maxHealth],
      [regenPerSecond]) are finite numbers, as JSON delivers them.  A field
      the source reads through [?.] or [??] is an [option].
    - The module-level array [snapshots] and the clock [Date.now()] are
      passed explicitly: [snapshots : list Snapshot] and [now : Z]
      (milliseconds since the epoch).  An [endTime] string stands for the
      epoch milliseconds [new Date(endTime).getTime()] parses it to.
    - [Array.prototype.sort] is a stable sort; it is embedded as a stable
      insertion sort driven by the sign of the comparator's result. *)

From Stdlib Require Import QArith Qround Lqa ZArith String Ascii Sorted.
From Stdlib Require Import DecimalString.
From stdpp Require Import gmap list strings.

(** ** JavaScript numbers *)

Module JsNum.

Inductive num : Type :=
  | NaN
  | PInf
  | NInf
  | Fin (q : Q).

Arguments Fin q%_Q.

Local Open Scope Q_scope.

Definition Qltb (a b : Q) : bool := negb (Qle_bool b a).

Definition signed_inf (positive : bool) : num :=
  if positive then PInf else NInf.

(** Sign of a value as the arithmetic of infinities needs it:
    [Some true] positive, [Some false] negative, [None] zero or [NaN]. *)
Definition sign (x : num) : option bool :=
  match x with
  | NaN => None
  | PInf => Some true
  | NInf => Some false
  | Fin q => if Qltb 0 q then Some true
             else if Qltb q 0 then Some false else None
  end.

Definition is_nan (x : num) : bool :=
  match x with NaN => true | _ => false end.

(** [isFinite(x)] *)
Definition isFinite (x : num) : bool :=
  match x with Fin _ => true | _ => false end.

(** Truthiness of a number: [0] and [NaN] are falsy. *)
Definition truthy (x : num) : bool :=
  match x with
  | NaN => false
  | Fin q => negb (Qeq_bool q 0)
  | _ => true
  end.

Definition neg (x : num) : num :=
  match x with
  | NaN => NaN
  | PInf => NInf
  | NInf => PInf
  | Fin q => Fin (- q)
  end.

Definition add (x y : num) : num :=
  match x, y with
  | NaN, _ | _, NaN => NaN
  | PInf, NInf | NInf, PInf => NaN
  | PInf, _ | _, PInf => PInf
  | NInf, _ | _, NInf => NInf
  | Fin a, Fin b => Fin (a + b)
  end.

Definition sub (x y : num) : num := add x (neg y).

Definition mul (x y : num) : num :=
  match x, y with
  | Fin a, Fin b => Fin (a * b)
  | _, _ =>
      match sign x, sign y with
      | Some sx, Some sy => signed_inf (Bool.eqb sx sy)
      | _, _ => NaN
      end
  end.

Definition div (x y : num) : num :=
  match x, y with
  | NaN, _ | _, NaN => NaN
  | Fin a, Fin b =>
      if Qeq_bool b 0
      then match sign x with Some s => signed_inf s | None => NaN end
      else Fin (a / b)
  | Fin _, _ => Fin 0
  | _, Fin b =>
      match sign x with
      | Some s => signed_inf (Bool.eqb s (negb (Qltb b 0)))
      | None => NaN
      end
  | _, _ => NaN
  end.

(** The relational operators: every comparison with [NaN] is false. *)
Definition ltb (x y : num) : bool :=
  match x, y with
  | NaN, _ | _, NaN => false
  | _, NInf => false
  | NInf, _ => true
  | PInf, _ => false
  | _, PInf => true
  | Fin a, Fin b => Qltb a b
  end.

Definition leb (x y : num) : bool :=
  match x, y with
  | NaN, _ | _, NaN => false
  | NInf, _ => true
  | _, NInf => false
  | _, PInf => true
  | PInf, _ => false
  | Fin a, Fin b => Qle_bool a b
  end.

Definition gtb (x y : num) : bool := ltb y x.
Definition geb (x y : num) : bool := leb y x.

(** [x !== y] on numbers ([NaN] differs from everything). *)
Definition neqb (x y : num) : bool :=
  match x, y with
  | NaN, _ | _, NaN => true
  | PInf, PInf | NInf, NInf => false
  | Fin a, Fin b => negb (Qeq_bool a b)
  | _, _ => true
  end.

(** The same value: both [NaN], the same infinity, or equal finite
    numbers.  Used to state results, not by the program. *)
Definition sameb (x y : num) : bool :=
  match x, y with
  | NaN, NaN | PInf, PInf | NInf, NInf => true
  | Fin a, Fin b => Qeq_bool a b
  | _, _ => false
  end.

(** [y] is not below [x]: [x <= y], or both are [NaN] (a result that
    stays [NaN] has not decreased).  Used to state monotonicity. *)
Definition nondecreasing (x y : num) : Prop :=
  leb x y = true \/ (x = NaN /\ y = NaN).

(** Neither [NaN] nor [+Infinity].  Used to analyse the score. *)
Definition bounded_above (x : num) : Prop :=
  x = NInf \/ isFinite x = true.

(** [Math.min(x, y)] and [Math.max(x, y)]: [NaN] if either is. *)
Definition min (x y : num) : num :=
  match x, y with
  | NaN, _ | _, NaN => NaN
  | _, _ => if ltb y x then y else x
  end.

Definition max (x y : num) : num :=
  match x, y with
  | NaN, _ | _, NaN => NaN
  | _, _ => if ltb x y then y else x
  end.

(** [Math.min(...xs)]: [Infinity] for no argument. *)
Definition min_list (xs : list num) : num := foldr min PInf xs.

(** [Math.ceil] and [Math.round] (halves round up). *)
Definition ceil (x : num) : num :=
  match x with
  | Fin q => Fin (inject_Z (Qceiling q))
  | _ => x
  end.

Definition round (x : num) : num :=
  match x with
  | Fin q => Fin (inject_Z (Qfloor (q + (1 # 2))))
  | _ => x
  end.

End JsNum.

Export JsNum (num, NaN, PInf, NInf, Fin).

Declare Scope js_scope.
Delimit Scope js_scope with js.
Bind Scope js_scope with num.
Infix "+" := JsNum.add : js_scope.
Infix "-" := JsNum.sub : js_scope.
Infix "*" := JsNum.mul : js_scope.
Infix "/" := JsNum.div : js_scope.
Infix "<" := JsNum.ltb : js_scope.
Infix "<=" := JsNum.leb : js_scope.
Infix ">" := JsNum.gtb : js_scope.
Infix ">=" := JsNum.geb : js_scope.
Infix "!==" := JsNum.neqb (at level 70) : js_scope.

(** ** Strings and arrays of the runtime *)

Module JsStr.

Definition lower_ascii (c : ascii) : ascii :=
  let n := nat_of_ascii c in
  if (65 <=? n)%nat && (n <=? 90)%nat then ascii_of_nat (n + 32) else c.

(** [s.toLowerCase()]: only the letters A-Z change into ASCII letters. *)
Fixpoint toLowerCase (s : string) : string :=
  match s with
  | EmptyString => EmptyString
  | String c s' => String (lower_ascii c) (toLowerCase s')
  end.

(** [hay.includes(needle)] *)
Fixpoint includes (needle hay : string) : bool :=
  String.prefix needle hay ||
  match hay with
  | EmptyString => false
  | String _ hay' => includes needle hay'
  end.

(** Truthiness of a string: only the empty string is falsy. *)
Definition truthy (s : string) : bool :=
  match s with EmptyString => false | _ => true end.

End JsStr.

Module JsArray.

Section Sort.
Context {A : Type}.
Variable comparefn : A -> A -> num.

(** [x] goes behind [y] only when [comparefn(x, y) > 0]; a result of
    zero or [NaN] keeps the earlier element first (stability). *)
Fixpoint insert (x : A) (l : list A) : list A :=
  match l with
  | [] => [x]
  | y :: l' =>
      if (comparefn x y > Fin 0)%js then y :: insert x l' else x :: l
  end.

(** [l.sort(comparefn)] *)
Definition sort (l : list A) : list A := foldr insert [] l.
End Sort.

(** [new Set(l)]: the elements in insertion order, each once. *)
Definition new_Set `{EqDecision A} (l : list A) : list A :=
  foldl (fun acc x => if decide (x ∈ acc) then acc else acc ++ [x]) [] l.

(** [l.includes(x)] *)
Definition includes `{EqDecision A} (l : list A) (x : A) : bool :=
  bool_decide (x ∈ l).

End JsArray.

(** ** Data model *)

(** The timed defense a planet is under; [endTime] is [None] when the
    field is absent or empty. *)
Record Event := { endTime : option Z }.

Record Planet := {
  index : Z;
  health : Q;
  maxHealth : Q;
  regenPerSecond : Q;
  playerCount : option Q;        (* statistics?.playerCount *)
  currentOwner : option string;
  waypoints : option (list Z);
  event : option Event;
}.

Record Campaign := { planet : Planet; faction : option string }.

Record War := { impactMultiplier : option Q }.

Record Snapshot := {
  ts : Z;
  snap_health : gmap Z Q;        (* planetIndex -> current health *)
  snap_players : gmap Z Q;       (* planetIndex -> playerCount *)
}.

Record NetRateObj := { value : option num; estimated : bool }.

Record PlayerReqs := {
  pr_min : num;
  pr_recommended : num;
  pr_estimated : bool;           (* an absent flag reads as false *)
}.

Inductive CondLabel : Type :=
  | LiberationProgress
  | NetRatePositive
  | CompletableWithin48h
  | EtaBeatsDefenseExpiry
  | PlayersAtLeastMinimum (minimum : num).

(** A checklist row.  [status] is the status word of the source's detail
    text; the figures formatted around it ([toFixed], [toLocaleString])
    are display text and are left out. *)
Record Condition := { label : CondLabel; status : string; pass : bool }.

Record RiskLevel := { risk_label : string; cls : string }.

Record Gambit := {
  libCampaign : Campaign;
  connectedDefenses : list Campaign;
  connectedLiberation : list Campaign;
  g_libPct : num;
  netRateObj : NetRateObj;
  netRate : option num;
  timeToComplete : option num;
  players : Q;
  playerReqs : option PlayerReqs;
  conditions : list Condition;
  successPct : num;
  risk : RiskLevel;
}.

Record ScoutTarget := { target_planet : Planet; decayPctHr : option num }.

Record ScoutResult := {
  defenseCampaign : Campaign;
  targets : list ScoutTarget;
}.

(** ** Helpers of the application script *)

Definition of_nat (n : nat) : num := Fin (inject_Z (Z.of_nat n)).
Definition of_Z (z : Z) : num := Fin (inject_Z z).

(** [libPct(planet)] *)
Definition libPct (planet : Planet) : num :=
  if negb (JsNum.truthy (Fin (maxHealth planet))) then Fin 0
  else JsNum.max (Fin 0)
         (JsNum.min (Fin 100)
            ((Fin 1 - Fin (health planet) / Fin (maxHealth planet))
             * Fin 100)%js).

(** [hoursLeft(endTimeStr)], reading the clock [now]. *)
Definition hoursLeft (now : Z) (endTimeStr : Z) : num :=
  ((of_Z endTimeStr - of_Z now) / Fin 3600000)%js.

(** ** Snapshot store *)

(** The [entry] object [recordSnapshot] builds at clock reading [now]. *)
Definition snapshotEntry (now : Z) (planets : option (list Planet))
    : Snapshot :=
  foldl (fun entry p =>
           {| ts := ts entry;
              snap_health := <[index p := health p]> (snap_health entry);
              snap_players :=
                <[index p := default 0%Q (playerCount p)]>
                  (snap_players entry) |})
        {| ts := now; snap_health := ∅; snap_players := ∅ |}
        (default [] planets).

(** [recordSnapshot(planets)] at clock reading [now]. *)
Definition recordSnapshot (now : Z) (planets : option (list Planet))
    (snapshots : list Snapshot) : list Snapshot :=
  let entry := snapshotEntry now planets in
  let snapshots := snapshots ++ [entry] in
  if decide (6 < length snapshots)%nat then tail snapshots else snapshots.

(** The store after a sequence of refreshes, each a clock reading and the
    planet array it delivered, starting from the empty store the module
    is loaded with. *)
Definition record_all (calls : list (Z * option (list Planet)))
    : list Snapshot :=
  foldl (fun snapshots call => recordSnapshot call.1 call.2 snapshots)
        [] calls.

(** ** Rate calculation *)

(** [measuredNetRate(planetIndex, maxHealth)] *)
Definition measuredNetRate (snapshots : list Snapshot) (planetIndex : Z)
    (maxHealth : num) : option num :=
  if decide (length snapshots < 2)%nat then None
  else
    match snapshots !! (length snapshots - 1)%nat,
          snapshots !! (length snapshots - 2)%nat with
    | Some latest, Some prev =>
        match snap_health latest !! planetIndex,
              snap_health prev !! planetIndex with
        | Some latestHealth, Some prevHealth =>
            let deltaHours :=
              ((of_Z (ts latest) - of_Z (ts prev)) / Fin 3600000)%js in
            if (deltaHours < Fin 0.002)%js then None
            else
              let deltaHealth := (Fin prevHealth - Fin latestHealth)%js in
              Some ((deltaHealth / maxHealth) * Fin 100 / deltaHours)%js
        | _, _ => None
        end
    | _, _ => None
    end.

(** The expression both [estimatedNetRate] and [calcPlayerRequirements]
    bind to their local [decayPctHr]. *)
Definition decayPctHr_of (planet : Planet) : num :=
  ((Fin (regenPerSecond planet) * Fin 3600 / Fin (maxHealth planet))
   * Fin 100)%js.

(** [estimatedNetRate(planet)] *)
Definition estimatedNetRate (planet : Planet) : NetRateObj :=
  let decayPctHr := decayPctHr_of planet in
  let players := default 0%Q (playerCount planet) in
  let playerRatePctHr := ((Fin players / Fin 10000) * Fin 1.0)%js in
  {| value := Some (playerRatePctHr - decayPctHr)%js; estimated := true |}.

(** ** Requirement calculator *)

(** [calcPlayerRequirements(planet, netRateObj, impactMultiplier)] *)
Definition calcPlayerRequirements (snapshots : list Snapshot)
    (planet : Planet) (netRateObj : NetRateObj)
    (impactMultiplier : option num) : option PlayerReqs :=
  let decayPctHr := decayPctHr_of planet in
  let currentPlayers := default 0%Q (playerCount planet) in
  if bool_decide (2 <= length snapshots)%nat && negb (estimated netRateObj)
  then
    (* Use measured per-player rate for accurate projections *)
    match snapshots !! (length snapshots - 1)%nat with
    | None => None
    | Some latest =>
        let playerCount :=
          Fin (default currentPlayers (snap_players latest !! index planet)) in
        if (playerCount < Fin 10)%js then None
        else
          match value netRateObj with
          | None => None
          | Some measured =>
              let grossPlayerPctHr := (measured + decayPctHr)%js in
              if (grossPlayerPctHr <= Fin 0)%js then None
              else
                let ratePerPlayer := (grossPlayerPctHr / playerCount)%js in
                if (ratePerPlayer <= Fin 0)%js then None
                else
                  let min :=
                    JsNum.max (Fin 1)
                      (JsNum.ceil (decayPctHr / ratePerPlayer)%js) in
                  let remaining := (Fin 100 - libPct planet)%js in
                  let recommended :=
                    JsNum.max (min * Fin 2)%js
                      (JsNum.ceil
                         ((decayPctHr + remaining * (Fin 1 / Fin 24))
                          / ratePerPlayer)%js) in
                  Some {| pr_min := min; pr_recommended := recommended;
                          pr_estimated := false |}
          end
    end
  else
    (* Fallback estimate *)
    let imp := default (Fin 0.005) impactMultiplier in
    if (imp <= Fin 0)%js then None
    else
      let min := JsNum.ceil (decayPctHr / (imp * Fin 0.25))%js in
      Some {| pr_min := min; pr_recommended := (min * Fin 3)%js;
              pr_estimated := true |}.

(** ** Conditions checklist *)

(** Hours a connected defense has left:
    [dc.planet.event?.endTime ? hoursLeft(...) : Infinity]. *)
Definition defenseHours (now : Z) (dc : Campaign) : num :=
  match event (planet dc) ≫= endTime with
  | Some t => hoursLeft now t
  | None => PInf
  end.

(** [timeToComplete != null && isFinite(timeToComplete)] *)
Definition known_finite (timeToComplete : option num) : bool :=
  match timeToComplete with
  | Some t => JsNum.isFinite t
  | None => false
  end.

(** [buildConditions(libCampaign, netRateObj, timeToComplete,
    connectedDefenses, playerReqs)] *)
Definition buildConditions (now : Z) (libCampaign : Campaign)
    (netRateObj : NetRateObj) (timeToComplete : option num)
    (connectedDefenses : list Campaign) (playerReqs : option PlayerReqs)
    : list Condition :=
  let planet := planet libCampaign in
  let libPct_ := libPct planet in
  let players := Fin (default 0%Q (playerCount planet)) in
  let rate := value netRateObj in
  let conds := [] in
  (* 1. Liberation progress *)
  let conds := conds ++
    [ {| label := LiberationProgress;
         status := if (libPct_ >= Fin 60)%js then "STRONG"
                   else if (libPct_ >= Fin 25)%js then "ADEQUATE" else "LOW";
         pass := (libPct_ >= Fin 25)%js |} ] in
  (* 2. Net liberation rate is positive *)
  let conds := conds ++
    [ {| label := NetRatePositive;
         status := match rate with
                   | None => "Insufficient data"
                   | Some rate =>
                       if (rate > Fin 3)%js then "STRONG"
                       else if (rate > Fin 0)%js then "MARGINAL"
                       else if (rate > Fin (-2))%js then "LOSING"
                       else "CRITICAL"
                   end;
         pass := match rate with
                 | None => false
                 | Some rate => (rate > Fin 0)%js
                 end |} ] in
  (* 3. Completable within a reasonable timeframe *)
  let conds := conds ++
    [ {| label := CompletableWithin48h;
         status := match timeToComplete with
                   | Some t =>
                       if JsNum.isFinite t then
                         if (t < Fin 6)%js then "VERY FAST"
                         else if (t < Fin 12)%js then "FAST"
                         else if (t < Fin 24)%js then "FEASIBLE"
                         else "SLOW"
                       else
                         match rate with
                         | Some rate =>
                             if (rate <= Fin 0)%js then "IMPOSSIBLE"
                             else "UNKNOWN"
                         | None => "UNKNOWN"
                         end
                   | None =>
                       match rate with
                       | Some rate =>
                           if (rate <= Fin 0)%js then "IMPOSSIBLE"
                           else "UNKNOWN"
                       | None => "UNKNOWN"
                       end
                   end;
         pass := match timeToComplete with
                 | Some t => JsNum.isFinite t && (t <= Fin 48)%js
                 | None => false
                 end |} ] in
  (* 4. Supply-line defense timing *)
  let conds :=
    if (0 <? length connectedDefenses)%nat then
      let defHours := map (defenseHours now) connectedDefenses in
      let minDefHr := JsNum.min_list defHours in
      let pass := match timeToComplete with
                  | Some t => JsNum.isFinite t && (t < minDefHr)%js
                  | None => false
                  end in
      conds ++
      [ {| label := EtaBeatsDefenseExpiry;
           status := if known_finite timeToComplete
                     then (if pass then "buffer" else "TOO SLOW")
                     else "ETA unknown";
           pass := pass |} ]
    else conds in
  (* 5. Player count at or above minimum breakeven *)
  let conds :=
    match playerReqs with
    | Some playerReqs =>
        conds ++
        [ {| label := PlayersAtLeastMinimum (pr_min playerReqs);
             status := if (players >= pr_recommended playerReqs)%js
                       then "SUFFICIENT"
                       else if (players >= pr_min playerReqs)%js
                       then "ADEQUATE" else "INSUFFICIENT";
             pass := (players >= pr_min playerReqs)%js |} ]
    | None => conds
    end in
  conds.

(** ** Success scoring *)

(** [calcSuccessPct(libPct_, netRate, timeToComplete, connectedDefenses,
    conditions)] *)
Definition calcSuccessPct (now : Z) (libPct_ : num) (netRate : option num)
    (timeToComplete : option num) (connectedDefenses : list Campaign)
    (conditions : list Condition) : num :=
  let score := Fin 0 in
  (* Liberation progress component *)
  let score := (score + (JsNum.min libPct_ (Fin 100) / Fin 100) * Fin 25)%js in
  (* Net rate component *)
  let score :=
    match netRate with
    | Some netRate =>
        if (netRate > Fin 0)%js
        then (score + JsNum.min (netRate / Fin 5) (Fin 1) * Fin 30)%js
        else (score + JsNum.max (netRate / Fin 5) (Fin (-1)) * Fin 10)%js
    | None => score
    end in
  (* Time viability component *)
  let score :=
    match timeToComplete with
    | Some timeToComplete =>
        if JsNum.isFinite timeToComplete then
          if (0 <? length connectedDefenses)%nat then
            let minDefHr :=
              JsNum.min_list (map (defenseHours now) connectedDefenses) in
            if (timeToComplete < minDefHr)%js then
              let buffer := (minDefHr - timeToComplete)%js in
              (score + JsNum.min (buffer / Fin 12) (Fin 1) * Fin 25)%js
            else (score - Fin 15)%js
          else
            (score
             + JsNum.max (Fin 0) (Fin 1 - timeToComplete / Fin 48) * Fin 25)%js
        else score
    | None => score
    end in
  (* Condition pass rate component *)
  let score :=
    if (0 <? length conditions)%nat then
      let passRatio :=
        (of_nat (length (filter (fun c => pass c = true) conditions))
         / of_nat (length conditions))%js in
      (score + passRatio * Fin 20)%js
    else score in
  JsNum.max (Fin 0) (JsNum.min (Fin 100) (JsNum.round score)).

(** [toRiskLevel(pct)] *)
Definition toRiskLevel (pct : num) : RiskLevel :=
  if (pct >= Fin 85)%js then {| risk_label := "OPTIMAL"; cls := "optimal" |}
  else if (pct >= Fin 70)%js
  then {| risk_label := "FAVORABLE"; cls := "favorable" |}
  else if (pct >= Fin 55)%js then {| risk_label := "VIABLE"; cls := "viable" |}
  else if (pct >= Fin 35)%js then {| risk_label := "RISKY"; cls := "risky" |}
  else {| risk_label := "CRITICAL"; cls := "critical" |}.

(** ** Detection *)

(** The supply-line test of both filters: either planet's waypoints name
    the other's index. *)
Definition supplyLinked (planet other : Planet) : bool :=
  JsArray.includes (default [] (waypoints planet)) (index other)
  || JsArray.includes (default [] (waypoints other)) (index planet).

(** The comparator [detectGambits] sorts with. *)
Definition gambitOrder (a b : Gambit) : num :=
  let aHasDef := if (0 <? length (connectedDefenses a))%nat
                 then Fin 1 else Fin 0 in
  let bHasDef := if (0 <? length (connectedDefenses b))%nat
                 then Fin 1 else Fin 0 in
  if (bHasDef !== aHasDef)%js then (bHasDef - aHasDef)%js
  else (successPct b - successPct a)%js.

(** The body of the loop of [detectGambits] for the campaign at position
    [i].  Campaign objects come from decoded JSON, so two positions of the
    array never hold the same object: [lc === libCampaign] is the test
    that the positions agree. *)
Definition analyse (snapshots : list Snapshot) (now : Z)
    (liberationCampaigns defenseCampaigns : list Campaign) (imp : num)
    (i : nat) (libCampaign : Campaign) : Gambit :=
  let planet_ := planet libCampaign in
  let libPct_ := libPct planet_ in
  (* Find defense campaigns connected via supply lines *)
  let connected :=
    filter (fun dc => supplyLinked planet_ (planet dc) = true)
           defenseCampaigns in
  (* Find OTHER liberation campaigns connected via supply lines *)
  let connectedLiberation :=
    map snd
      (filter (fun jlc => jlc.1 <> i /\
                          supplyLinked planet_ (planet jlc.2) = true)
              (imap (fun j lc => (j, lc)) liberationCampaigns)) in
  (* Determine net liberation rate (measured if available, else estimated) *)
  let measured :=
    measuredNetRate snapshots (index planet_) (Fin (maxHealth planet_)) in
  let netRateObj :=
    match measured with
    | Some measured => {| value := Some measured; estimated := false |}
    | None => estimatedNetRate planet_
    end in
  let netRate := value netRateObj in
  (* Estimate time to complete liberation (hours) *)
  let remaining := (Fin 100 - libPct_)%js in
  let timeToComplete :=
    match netRate with
    | Some r => if (r > Fin 0)%js then Some (remaining / r)%js else None
    | None => None
    end in
  (* Player requirements *)
  let players := default 0%Q (playerCount planet_) in
  let playerReqs :=
    calcPlayerRequirements snapshots planet_ netRateObj (Some imp) in
  (* Conditions checklist *)
  let conditions :=
    buildConditions now libCampaign netRateObj timeToComplete connected
      playerReqs in
  (* Overall success score *)
  let successPct :=
    calcSuccessPct now libPct_ netRate timeToComplete connected conditions in
  {| libCampaign := libCampaign;
     connectedDefenses := connected;
     connectedLiberation := connectedLiberation;
     g_libPct := libPct_;
     netRateObj := netRateObj;
     netRate := netRate;
     timeToComplete := timeToComplete;
     players := players;
     playerReqs := playerReqs;
     conditions := conditions;
     successPct := successPct;
     risk := toRiskLevel successPct |}.

(** [war?.impactMultiplier ?? 0.005] *)
Definition impactOf (war : option War) : num :=
  Fin (default 0.005%Q (war ≫= impactMultiplier)).

(** [detectGambits(liberationCampaigns, defenseCampaigns, war)] *)
Definition detectGambits (snapshots : list Snapshot) (now : Z)
    (liberationCampaigns defenseCampaigns : list Campaign)
    (war : option War) : list Gambit :=
  let imp := impactOf war in
  let gambits :=
    imap (analyse snapshots now liberationCampaigns defenseCampaigns imp)
         liberationCampaigns in
  JsArray.sort gambitOrder gambits.

(** ** Strategic scout *)

(** The comparator of the targets of one defense. *)
Definition targetOrder (a b : ScoutTarget) : num :=
  (default PInf (decayPctHr a) - default PInf (decayPctHr b))%js.

(** The comparator of the results: defense urgency. *)
Definition urgencyOrder (a b : ScoutResult) : num :=
  let ta := match event (planet (defenseCampaign a)) ≫= endTime with
            | Some t => of_Z t
            | None => PInf
            end in
  let tb := match event (planet (defenseCampaign b)) ≫= endTime with
            | Some t => of_Z t
            | None => PInf
            end in
  (ta - tb)%js.

(** The body of the loop over [connectedIndices]: [None] where the source
    says [continue]. *)
Definition scoutCandidate (activePlanetIndices : gset Z)
    (planetByIndex : gmap Z Planet) (idx : Z) : option ScoutTarget :=
  if decide (idx ∈ activePlanetIndices) then None
  else
    match planetByIndex !! idx with
    | None => None
    | Some planet =>
        let owner := JsStr.toLowerCase (default ""%string (currentOwner planet)) in
        (* Skip planets we already own or with no ownership data *)
        if negb (JsStr.truthy owner) || JsStr.includes "human" owner
        then None
        else
          let decayPctHr :=
            if JsNum.truthy (Fin (maxHealth planet))
            then Some ((Fin (regenPerSecond planet) * Fin 3600
                        / Fin (maxHealth planet)) * Fin 100)%js
            else None in
          Some {| target_planet := planet; decayPctHr := decayPctHr |}
    end.

(** [detectScoutTargets(defenseCampaigns, liberationCampaigns, allPlanets)].
    Every planet record carries an [index], so the guard [p.index != null]
    of the lookup table always passes. *)
Definition detectScoutTargets (defenseCampaigns liberationCampaigns
    : list Campaign) (allPlanets : list Planet) : list ScoutResult :=
  (* Planet indices already being actively fought over *)
  let activePlanetIndices : gset Z :=
    list_to_set (map (fun c => index (planet c)) liberationCampaigns
                 ++ map (fun c => index (planet c)) defenseCampaigns) in
  (* Full planet lookup by index *)
  let planetByIndex : gmap Z Planet :=
    foldl (fun m p => <[index p := p]> m) ∅ allPlanets in
  let results :=
    omap (fun dc =>
            let defPlanet := planet dc in
            (* All planet indices connected via supply lines *)
            let connectedIndices :=
              JsArray.new_Set
                (default [] (waypoints defPlanet)
                 ++ map index
                      (filter (fun p =>
                                 JsArray.includes (default [] (waypoints p))
                                   (index defPlanet) = true)
                              allPlanets)) in
            let targets :=
              omap (scoutCandidate activePlanetIndices planetByIndex)
                   connectedIndices in
            (* Sort: easiest to liberate first *)
            let targets := JsArray.sort targetOrder targets in
            if (0 <? length targets)%nat
            then Some {| defenseCampaign := dc; targets := targets |}
            else None)
         defenseCampaigns in
  (* Sort results by defense urgency: least time remaining first *)
  JsArray.sort urgencyOrder results.

(** ** The parts of the score

    Names for the four terms [calcSuccessPct] adds up and for its final
    clamp, used to analyse the score; [calcSuccessPct_components] below
    proves that the function is their composition. *)

Definition progressComponent (libPct_ : num) : num :=
  ((JsNum.min libPct_ (Fin 100) / Fin 100) * Fin 25)%js.

Definition rateComponent (netRate : option num) : option num :=
  match netRate with
  | Some netRate =>
      Some (if (netRate > Fin 0)%js
            then (JsNum.min (netRate / Fin 5) (Fin 1) * Fin 30)%js
            else (JsNum.max (netRate / Fin 5) (Fin (-1)) * Fin 10)%js)
  | None => None
  end.

Definition timeComponent (now : Z) (timeToComplete : option num)
    (connectedDefenses : list Campaign) : option num :=
  match timeToComplete with
  | Some timeToComplete =>
      if JsNum.isFinite timeToComplete then
        if (0 <? length connectedDefenses)%nat then
          let minDefHr :=
            JsNum.min_list (map (defenseHours now) connectedDefenses) in
          if (timeToComplete < minDefHr)%js then
            Some (JsNum.min ((minDefHr - timeToComplete) / Fin 12) (Fin 1)
                  * Fin 25)%js
          else Some (Fin (-15))
        else
          Some (JsNum.max (Fin 0) (Fin 1 - timeToComplete / Fin 48)
                * Fin 25)%js
      else None
  | None => None
  end.

Definition conditionComponent (conditions : list Condition) : option num :=
  if (0 <? length conditions)%nat then
    Some ((of_nat (length (filter (fun c => pass c = true) conditions))
           / of_nat (length conditions)) * Fin 20)%js
  else None.

Definition add_component (score : num) (component : option num) : num :=
  match component with
  | Some c => (score + c)%js
  | None => score
  end.

Definition clamp_score (score : num) : num :=
  JsNum.max (Fin 0) (JsNum.min (Fin 100) (JsNum.round score)).

(** ** The ranking of gambits

    What the specification asks of two gambits [a] and [b] when [a] comes
    before [b] in the returned list. *)

Definition hasDefense (g : Gambit) : bool :=
  (0 <? length (connectedDefenses g))%nat.

(** A gambit with a connected defense never comes after one without. *)
Definition grouped (a b : Gambit) : Prop :=
  hasDefense b = true -> hasDefense a = true.

(** Moreover, within a group the score does not increase. *)
Definition ranked (a b : Gambit) : Prop :=
  grouped a b
  /\ (hasDefense a = hasDefense b ->
      (successPct b <= successPct a)%js = true).

(** A sort key that is a finite number or [Infinity].  Used to state the
    order of sorted arrays. *)
Definition orderable (x : num) : Prop :=
  JsNum.isFinite x = true \/ x = PInf.

(** The two tables [detectScoutTargets] builds first, named to state its
    properties: [activePlanetIndices] and [planetByIndex]. *)
Definition activeIndices (defenseCampaigns liberationCampaigns
    : list Campaign) : gset Z :=
  list_to_set (map (fun c => index (planet c)) liberationCampaigns
               ++ map (fun c => index (planet c)) defenseCampaigns).

Definition planetTable (allPlanets : list Planet) : gmap Z Planet :=
  foldl (fun m p => <[index p := p]> m) ∅ allPlanets.

(** The key [detectScoutTargets] sorts the targets by. *)
Definition decayKey (t : ScoutTarget) : num := default PInf (decayPctHr t).

(** The condition term of the score as a function of the pass flags of
    the checklist alone; [conditionComponent_flags] below proves that
    [conditionComponent] is this function of the flags. *)
Definition passComponent (flags : list bool) : option num :=
  if (0 <? length flags)%nat then
    Some ((of_nat (length (filter (fun b => b = true) flags))
           / of_nat (length flags)) * Fin 20)%js
  else None.

(** A term of the score that adds at most [bound]: absent (and [bound]
    is not negative) or a finite number not above [bound].  Used to bound
    the score. *)
Definition component_le (component : option num) (bound : Q) : Prop :=
  match component with
  | None => (0 <= bound)%Q
  | Some (Fin c) => (c <= bound)%Q
  | Some _ => False
  end.

(** ** Further helpers of the application script *)

(** [decayRate(planet)] *)
Definition decayRate (planet : Planet) : num :=
  if negb (JsNum.truthy (Fin (regenPerSecond planet)))
     || negb (JsNum.truthy (Fin (maxHealth planet)))
  then Fin 0
  else ((Fin (regenPerSecond planet) * Fin 3600 / Fin (maxHealth planet))
        * Fin 100)%js.




(** [factionCls(faction)] *)
Definition factionCls (faction : option string) : string :=
  match faction with
  | None => ""
  | Some faction =>
      if negb (JsStr.truthy faction) then ""
      else
        let f := JsStr.toLowerCase faction in
        if JsStr.includes "terminid" f then "terminid"
        else if JsStr.includes "automaton" f then "automaton"
        else if JsStr.includes "illuminate" f then "illuminate"
        else "human"
  end%string.

(** [factionLabel(faction)].  [toUpperCase] stands for the built-in
    [String.prototype.toUpperCase], whose Unicode case mapping is not
    modelled: the function is embedded for any such mapping. *)
Definition factionLabel (toUpperCase : string -> string)
    (faction : option string) : string :=
  match faction with
  | None => "UNKNOWN"
  | Some faction =>
      if negb (JsStr.truthy faction) then "UNKNOWN"
      else
        let f := JsStr.toLowerCase faction in
        if JsStr.includes "terminid" f then "TERMINIDS"
        else if JsStr.includes "automaton" f then "AUTOMATONS"
        else if JsStr.includes "illuminate" f then "ILLUMINATE"
        else if JsStr.includes "human" f then "SUPER EARTH"
        else toUpperCase faction
  end%string.

(** The expiry both [renderDefense] and [renderGambitCard] compare
    defenses by: [event?.endTime ? new Date(endTime).getTime() : Infinity]. *)
Definition expiryOf (c : Campaign) : num :=
  match event (planet c) ≫= endTime with
  | Some t => of_Z t
  | None => PInf
  end.

(** The order [renderLiberation] shows the campaigns in:
    [[...campaigns].sort(...)], most players first. *)
Definition liberationOrder (campaigns : list Campaign) : list Campaign :=
  JsArray.sort
    (fun a b => (Fin (default 0%Q (playerCount (planet b)))
                 - Fin (default 0%Q (playerCount (planet a))))%js)
    campaigns.

(** The order [renderDefense] shows the campaigns in, most urgent first. *)
Definition defenseOrder (campaigns : list Campaign) : list Campaign :=
  JsArray.sort (fun a b => (expiryOf a - expiryOf b)%js) campaigns.

(** ** Presentation of the gambits *)

Record Recommendation := {
  rec_cls : string;
  icon : string;
  headline : string;
  sub : string;
}.

(** [getRecommendation(successPct, planetName)] *)
Definition getRecommendation (successPct : num) (planetName : string)
    : Recommendation :=
  (if (successPct >= Fin 85)%js then
     {| rec_cls := "deploy-now"; icon := "▶";
        headline := "DEPLOY IMMEDIATELY";
        sub := planetName ++ " needs Helldivers NOW — conditions are ideal for a successful gambit" |}
   else if (successPct >= Fin 70)%js then
     {| rec_cls := "recommended"; icon := "▶";
        headline := "GAMBIT RECOMMENDED";
        sub := "Deploy to " ++ planetName ++ " — your presence will meaningfully tip the balance" |}
   else if (successPct >= Fin 55)%js then
     {| rec_cls := "consider"; icon := "▶";
        headline := "GAMBIT POSSIBLE";
        sub := planetName ++ " is viable but needs sustained commitment — consider deploying" |}
   else if (successPct >= Fin 35)%js then
     {| rec_cls := "caution"; icon := "⚠";
        headline := "PROCEED WITH CAUTION";
        sub := "Gambit on " ++ planetName ++ " is risky — only attempt with a significant player surge" |}
   else
     {| rec_cls := "not-recommended"; icon := "✗";
        headline := "NOT RECOMMENDED";
        sub := "Conditions on " ++ planetName ++ " are unfavourable — gambit unlikely to succeed" |})%string.

(** The array [viable] of [renderGambits]: the cards it shows, in order
    (every gambit with a connected defense, then gambits without one up
    to a total of 6). *)
Definition viableGambits (gambits : list Gambit) : list Gambit :=
  let withDef :=
    filter (fun g => (0 < length (connectedDefenses g))%nat) gambits in
  let withoutDef :=
    filter (fun g => length (connectedDefenses g) = 0%nat) gambits in
  withDef ++ take (6 - length withDef) withoutDef.

(** The defense [renderGambitCard] shows as the supply line at risk:
    [g.connectedDefenses.reduce((a, b) => ta < tb ? a : b)], computed only
    for a non-empty array ([None] stands for the array being empty). *)
Definition mostUrgentDefense (connectedDefenses : list Campaign)
    : option Campaign :=
  match connectedDefenses with
  | [] => None
  | dc :: rest =>
      Some (foldl (fun a b => if (expiryOf a < expiryOf b)%js then a else b)
                  dc rest)
  end.

(** ** Suggestions for a gambit that is not recommended *)

(** [Math.abs] *)
Definition Math_abs (x : JsNum.num) : JsNum.num :=
  match x with
  | JsNum.NaN => JsNum.NaN
  | JsNum.PInf | JsNum.NInf => JsNum.PInf
  | JsNum.Fin q => JsNum.Fin (if JsNum.Qltb q 0 then - q else q)
  end.

(** The messages [buildSuggestions] pushes, one constructor for each
    template string in the order of the source, with the figures the
    template formats ([toFixed], [toLocaleString] and the planet name are
    display text and are left out). *)
Inductive Suggestion : Type :=
  | ReachLiberation (libPct_ : JsNum.num)
      (* Reach at least 25% liberation - currently ... *)
  | DeployMore (extra minimum players : JsNum.num)
      (* Deploy ... more Helldivers ... just to break even on enemy regen *)
  | RateNegative (deficit : option JsNum.num)
      (* Net liberation rate is ...%/hr negative; '?' for no rate *)
  | SurgeNeeded (netRate : JsNum.num)
      (* Net rate is ...%/hr. A significant player surge is needed *)
  | TurnPositiveFirst
      (* Liberation rate must turn positive ... (see above) *)
  | CompressTimeline (timeToComplete : JsNum.num)
      (* At the current rate, liberation takes ...h *)
  | EtaOvershoots (timeToComplete minDefHr gap : JsNum.num)
      (* Liberation ETA overshoots the defense window by ...h *)
  | DefenseExpires (minDefHr : JsNum.num)
      (* Defense expires in ...h. Turn the liberation rate positive first *)
  | MoreNeeded (extra players minimum : JsNum.num).
      (* ... more Helldivers are needed just to halt enemy regen *)

(** The fixed text a condition label begins with; [startsWith l h] is
    [cond.label.startsWith('...')] on the labels [buildConditions]
    writes. *)
Inductive LabelHead : Type :=
  | HeadLiberationProgress         (* 'Liberation progress' *)
  | HeadNetRatePositive            (* 'Net rate positive' *)
  | HeadLiberationCompletable      (* 'Liberation completable' *)
  | HeadEtaBeatsDefenseExpiry      (* 'ETA beats defense expiry' *)
  | HeadPlayersMinimum.            (* 'Players >= minimum' *)

Definition startsWith (l : CondLabel) (h : LabelHead) : bool :=
  match l, h with
  | LiberationProgress, HeadLiberationProgress
  | NetRatePositive, HeadNetRatePositive
  | CompletableWithin48h, HeadLiberationCompletable
  | EtaBeatsDefenseExpiry, HeadEtaBeatsDefenseExpiry
  | PlayersAtLeastMinimum _, HeadPlayersMinimum => true
  | _, _ => false
  end.

(** The body of the loop [for (const cond of g.conditions)] of
    [buildSuggestions], on the loop's state: the array [suggestions] and
    the flag [playerSuggestionAdded]. *)
Definition suggestionStep (now : Z) (g : Gambit)
    (st : list Suggestion * bool) (cond : Condition)
    : list Suggestion * bool :=
  let '(suggestions, playerSuggestionAdded) := st in
  if pass cond then st else        (* continue *)
  let players := JsNum.Fin (players g) in
  (* 1. Liberation progress too low *)
  let suggestions :=
    if startsWith (label cond) HeadLiberationProgress
    then suggestions ++ [ReachLiberation (g_libPct g)]
    else suggestions in
  (* 2. Net rate negative *)
  let '(suggestions, playerSuggestionAdded) :=
    if startsWith (label cond) HeadNetRatePositive then
      match playerReqs g with
      | Some reqs =>
          let extra := JsNum.max (JsNum.Fin 0) (pr_min reqs - players)%js in
          if (extra > JsNum.Fin 0)%js
          then (suggestions ++ [DeployMore extra (pr_min reqs) players], true)
          else (suggestions ++ [RateNegative (Math_abs <$> netRate g)],
                playerSuggestionAdded)
      | None =>
          match netRate g with
          | Some r => (suggestions ++ [SurgeNeeded r], playerSuggestionAdded)
          | None => (suggestions, playerSuggestionAdded)
          end
      end
    else (suggestions, playerSuggestionAdded) in
  (* 3. Cannot complete within 48h *)
  let suggestions :=
    if startsWith (label cond) HeadLiberationCompletable then
      if match netRate g with
         | Some r => (r <= JsNum.Fin 0)%js
         | None => false
         end
      then suggestions ++ [TurnPositiveFirst]
      else
        match timeToComplete g with
        | Some t =>
            if JsNum.isFinite t then suggestions ++ [CompressTimeline t]
            else suggestions
        | None => suggestions
        end
    else suggestions in
  (* 4. ETA exceeds defense timer *)
  let suggestions :=
    if startsWith (label cond) HeadEtaBeatsDefenseExpiry
       && (0 <? length (connectedDefenses g))%nat then
      let minDefHr :=
        JsNum.min_list (map (defenseHours now) (connectedDefenses g)) in
      if JsNum.isFinite minDefHr then
        match timeToComplete g with
        | Some t =>
            if JsNum.isFinite t
            then suggestions ++ [EtaOvershoots t minDefHr (t - minDefHr)%js]
            else suggestions ++ [DefenseExpires minDefHr]
        | None => suggestions ++ [DefenseExpires minDefHr]
        end
      else suggestions
    else suggestions in
  (* 5. Player count below minimum *)
  let suggestions :=
    if startsWith (label cond) HeadPlayersMinimum then
      match playerReqs g with
      | Some reqs =>
          if playerSuggestionAdded then suggestions
          else
            let extra := JsNum.max (JsNum.Fin 0) (pr_min reqs - players)%js in
            if (extra > JsNum.Fin 0)%js
            then suggestions ++ [MoreNeeded extra players (pr_min reqs)]
            else suggestions
      | None => suggestions
      end
    else suggestions in
  (suggestions, playerSuggestionAdded).

(** [buildSuggestions(g)], reading the clock [now]. *)
Definition buildSuggestions (now : Z) (g : Gambit) : list Suggestion :=
  fst (foldl (suggestionStep now g) ([], false) (conditions g)).

(** Suggestions about the net rate (the three of step 2), and the two
    that ask for a number of additional Helldivers. *)
Definition aboutNetRate (s : Suggestion) : bool :=
  match s with
  | DeployMore _ _ _ | RateNegative _ | SurgeNeeded _ => true
  | _ => false
  end.

Definition asksForPlayers (s : Suggestion) : bool :=
  match s with
  | DeployMore _ _ _ | MoreNeeded _ _ _ => true
  | _ => false
  end.

(** Suggestions that are neither about the net rate, nor a request for
    players, nor the reference back. *)
Definition plain (x : Suggestion) : Prop :=
  aboutNetRate x = false /\ asksForPlayers x = false
  /\ x <> TurnPositiveFirst.

(** ** Concrete inputs *)

(** The input of the specification's example: [regenPerSecond = 0.001],
    [maxHealth = 1,000,000], [playerCount = 20,000]. *)
Definition example_planet : Planet :=
  {| index := 1; health := 500000; maxHealth := 1000000;
     regenPerSecond := 0.001; playerCount := Some 20000%Q;
     currentOwner := None; waypoints := None; event := None |}.

(** A campaign on a planet; the faction plays no part in the analysis. *)
Definition campaign_of (p : Planet) : Campaign :=
  {| planet := p; faction := None |}.

(** A liberation target nobody has made progress on, with a supply line
    to planet 8 only. *)
Definition untouched_planet : Planet :=
  {| index := 7; health := 1000000; maxHealth := 1000000;
     regenPerSecond := 0.001; playerCount := Some 500%Q;
     currentOwner := Some "Terminids"%string; waypoints := Some [8%Z];
     event := None |}.

(** A planet under a timed defense ending at [expiry], with supply lines
    to [links]. *)
Definition defended_planet (i : Z) (links : list Z) (expiry : Z) : Planet :=
  {| index := i; health := 1000000; maxHealth := 1000000;
     regenPerSecond := 0; playerCount := Some 3000%Q;
     currentOwner := Some "Humans"%string; waypoints := Some links;
     event := Some {| endTime := Some expiry |} |}.

(** An enemy-held planet nobody fights over. *)
Definition enemy_planet (i : Z) (links : list Z) : Planet :=
  {| index := i; health := 1000000; maxHealth := 1000000;
     regenPerSecond := 0.001; playerCount := None;
     currentOwner := Some "Automaton"%string; waypoints := Some links;
     event := None |}.

(** A liberation target at 50 %, 20,000 players on it, with a supply line
    to planet 20. *)
Definition contested_planet : Planet :=
  {| index := 5; health := 500000; maxHealth := 1000000;
     regenPerSecond := 0.001; playerCount := Some 20000%Q;
     currentOwner := Some "Terminids"%string; waypoints := Some [20%Z];
     event := None |}.

(** A planet whose record carries [maxHealth = 0] and
    [regenPerSecond = 0]. *)
Definition hollow_planet : Planet :=
  {| index := 2; health := 0; maxHealth := 0; regenPerSecond := 0;
     playerCount := None; currentOwner := None; waypoints := None;
     event := None |}.

(** Two ordinary liberation targets: one barely started with few players,
    one nearly done with many. *)
Definition slow_planet : Planet :=
  {| index := 3; health := 990000; maxHealth := 1000000;
     regenPerSecond := 0.001; playerCount := Some 100%Q;
     currentOwner := None; waypoints := None; event := None |}.

Definition fast_planet : Planet :=
  {| index := 4; health := 100000; maxHealth := 1000000;
     regenPerSecond := 0.001; playerCount := Some 50000%Q;
     currentOwner := None; waypoints := None; event := None |}.

(** * Properties *)

(** ** Snapshot store *)

Section SnapshotStore.

Implicit Types (calls : list (Z * option (list Planet))).

Lemma record_all_snoc calls now planets :
  record_all (calls ++ [(now, planets)])
  = recordSnapshot now planets (record_all calls).
Proof. unfold record_all. by rewrite foldl_app. Qed.

Lemma recordSnapshot_length now planets snapshots :
  (length snapshots <= 6)%nat ->
  (length (recordSnapshot now planets snapshots) <= 6)%nat.
Proof.
  intros Hlen. unfold recordSnapshot. cbv zeta.
  case_decide as Hfull.
  - destruct snapshots; simpl in *; rewrite ?length_app; simpl; lia.
  - lia.
Qed.

Lemma recordSnapshot_full now planets snapshots :
  length snapshots = 6%nat ->
  recordSnapshot now planets snapshots
  = tail snapshots ++ [snapshotEntry now planets].
Proof.
  intros Hlen. unfold recordSnapshot. cbv zeta.
  rewrite decide_True by (rewrite length_app; simpl; lia).
  destruct snapshots; [discriminate | reflexivity].
Qed.

Lemma tail_drop {A} (n : nat) (l : list A) :
  tail (drop n l) = drop (S n) l.
Proof. revert l. induction n as [|n IH]; intros [|x l]; simpl; auto. Qed.

Lemma record_all_recent calls :
  record_all calls
  = drop (length calls - 6)
         (map (fun call => snapshotEntry call.1 call.2) calls).
Proof.
  induction calls as [|[now planets] calls IH] using rev_ind; [done|].
  rewrite record_all_snoc, IH, map_app, length_app. simpl.
  set (entries := map _ calls).
  assert (Hlen : length entries = length calls) by apply length_map.
  unfold recordSnapshot. cbv zeta.
  rewrite length_app, length_drop, Hlen. simpl.
  case_decide as Hfull.
  - replace (length calls + 1 - 6)%nat with (S (length calls - 6)) by lia.
    rewrite <- drop_app_le by lia.
    apply tail_drop.
  - replace (length calls - 6)%nat with 0%nat by lia.
    replace (length calls + 1 - 6)%nat with 0%nat by lia.
    by rewrite !drop_0.
Qed.

(** C6.  The snapshot store never holds more than 6 entries: after any
    sequence of [recordSnapshot] calls its length is at most 6 and it
    holds the most recent entries in capture order; recording into a
    store of 6 removes exactly the oldest entry and appends the new
    one. *)
Theorem snapshot_store_bounded calls :
  (length (record_all calls) <= 6)%nat
  /\ record_all calls
     = drop (length calls - 6)
            (map (fun call => snapshotEntry call.1 call.2) calls)
  /\ forall now planets,
       length (record_all calls) = 6%nat ->
       recordSnapshot now planets (record_all calls)
       = tail (record_all calls) ++ [snapshotEntry now planets].
Proof.
  split; [|split].
  - rewrite record_all_recent, length_drop, length_map. lia.
  - apply record_all_recent.
  - intros now planets Hlen. by apply recordSnapshot_full.
Qed.

End SnapshotStore.

Lemma snapshot_store_bounded_witness :
  let calls := [(1%Z, None); (2%Z, None); (3%Z, None);
                (4%Z, None); (5%Z, None); (6%Z, None)] in
  recordSnapshot 7 None (record_all calls)
  = tail (record_all calls) ++ [snapshotEntry 7 None].
Proof.
  intros calls.
  destruct (snapshot_store_bounded calls) as (_ & _ & Hfull).
  apply Hfull. reflexivity.
Defined.

(** ** Facts about JavaScript numbers *)

(** Linear arithmetic over [Q] after replacing each division by a
    constant with the multiplication by its inverse. *)
Ltac q_consts :=
  unfold Qdiv in *;
  repeat match goal with
    | |- context [Qinv (Qmake ?n ?d)] =>
        let v := eval vm_compute in (Qinv (Qmake n d)) in
        change (Qinv (Qmake n d)) with v
    | H : context [Qinv (Qmake ?n ?d)] |- _ =>
        let v := eval vm_compute in (Qinv (Qmake n d)) in
        change (Qinv (Qmake n d)) with v in H
    end.
Ltac q_arith := q_consts; lra.

Module JsNumFacts.
Import JsNum.

Lemma Qltb_lt (a b : Q) : Qltb a b = true <-> (a < b)%Q.
Proof.
  unfold Qltb. rewrite negb_true_iff, <- not_true_iff_false, Qle_bool_iff.
  split; [apply Qnot_le_lt | apply Qlt_not_le].
Qed.

Lemma Qltb_ge (a b : Q) : Qltb a b = false <-> (b <= a)%Q.
Proof.
  unfold Qltb. rewrite negb_false_iff. apply Qle_bool_iff.
Qed.

Lemma Qle_bool_gt (a b : Q) : Qle_bool a b = false <-> (b < a)%Q.
Proof.
  rewrite <- not_true_iff_false, Qle_bool_iff.
  split; [apply Qnot_le_lt | apply Qlt_not_le].
Qed.

Lemma Qeq_bool_false (a b : Q) : Qeq_bool a b = false <-> ~ (a == b)%Q.
Proof. by rewrite <- not_true_iff_false, Qeq_bool_iff. Qed.

(** Hours between two clock readings, against the 0.002 h threshold. *)
Lemma elapsed_hours_short (later earlier : Z) :
  ((of_Z later - of_Z earlier) / Fin 3600000 < Fin 0.002)%js
  = bool_decide (later - earlier < 7200)%Z.
Proof.
  unfold of_Z. cbn [sub add neg div ltb].
  change (Qeq_bool 3600000 0) with false. cbv iota.
  assert (Hq : (inject_Z later + - inject_Z earlier
                == inject_Z (later - earlier))%Q).
  { unfold Z.sub. by rewrite inject_Z_plus, inject_Z_opp. }
  case_bool_decide as Hz.
  - apply Qltb_lt. rewrite Hq.
    assert (inject_Z (later - earlier) < inject_Z 7200)%Q
      by (by rewrite <- Zlt_Qlt).
    change (inject_Z 7200) with 7200%Q in *.
    clear Hq. generalize dependent (inject_Z (later - earlier)).
    intros; q_arith.
  - apply Qltb_ge. rewrite Hq.
    assert (inject_Z 7200 <= inject_Z (later - earlier))%Q
      by (rewrite <- Zle_Qle; lia).
    change (inject_Z 7200) with 7200%Q in *.
    clear Hq. generalize dependent (inject_Z (later - earlier)).
    intros; q_arith.
Qed.

Ltac q_props :=
  repeat match goal with
    | H : Qltb _ _ = true |- _ => apply Qltb_lt in H
    | H : Qltb _ _ = false |- _ => apply Qltb_ge in H
    | H : Qle_bool _ _ = true |- _ => apply Qle_bool_iff in H
    | H : Qle_bool _ _ = false |- _ => apply Qle_bool_gt in H
    | H : Qeq_bool _ _ = true |- _ => apply Qeq_bool_iff in H
    | H : Qeq_bool _ _ = false |- _ => apply Qeq_bool_false in H
    | |- Qltb _ _ = true => apply Qltb_lt
    | |- Qltb _ _ = false => apply Qltb_ge
    | |- Qle_bool _ _ = true => apply Qle_bool_iff
    | |- Qle_bool _ _ = false => apply Qle_bool_gt
    end.

Ltac q_split :=
  repeat match goal with
    | |- context [Qltb ?a ?b] => destruct (Qltb a b) eqn:?
    | |- context [Qle_bool ?a ?b] => destruct (Qle_bool a b) eqn:?
    | H : context [if Qltb ?a ?b then _ else _] |- _ =>
        destruct (Qltb a b) eqn:?
    | H : context [if Qle_bool ?a ?b then _ else _] |- _ =>
        destruct (Qle_bool a b) eqn:?
    end.

(** Case analysis over the shapes of the numbers in a goal about
    [nondecreasing], down to linear arithmetic over [Q]. *)
Ltac nd_cases :=
  unfold nondecreasing in *; simpl in *;
  repeat match goal with
    | H : _ \/ _ |- _ => destruct H
    | H : _ /\ _ |- _ => destruct H
    end;
  try discriminate; simplify_eq; simpl in *;
  q_split; simpl in *; try discriminate;
  try (by right); try (left; first [reflexivity | q_props; q_arith]).

Lemma positive_consts (c : Q) :
  (0 < c)%Q ->
  Qltb 0 c = true /\ Qltb c 0 = false /\ Qeq_bool c 0 = false.
Proof.
  intros Hc. repeat split.
  - by apply Qltb_lt.
  - apply Qltb_ge. lra.
  - apply Qeq_bool_false. lra.
Qed.

Lemma nondecreasing_refl (x : num) : nondecreasing x x.
Proof. destruct x; nd_cases. Qed.

Lemma nondecreasing_trans (x y z : num) :
  nondecreasing x y -> nondecreasing y z -> nondecreasing x z.
Proof. intros Hxy Hyz. destruct x, y, z; nd_cases. Qed.

Lemma nondecreasing_min_l (c x y : num) :
  nondecreasing x y -> nondecreasing (min c x) (min c y).
Proof. intros H. destruct c, x, y; nd_cases. Qed.

Lemma nondecreasing_min_r (c x y : num) :
  nondecreasing x y -> nondecreasing (min x c) (min y c).
Proof. intros H. destruct c, x, y; nd_cases. Qed.

Lemma nondecreasing_max_l (c x y : num) :
  nondecreasing x y -> nondecreasing (max c x) (max c y).
Proof. intros H. destruct c, x, y; nd_cases. Qed.

Lemma nondecreasing_max_r (c x y : num) :
  nondecreasing x y -> nondecreasing (max x c) (max y c).
Proof. intros H. destruct c, x, y; nd_cases. Qed.

Lemma nondecreasing_round (x y : num) :
  nondecreasing x y -> nondecreasing (round x) (round y).
Proof.
  intros [H | [-> ->]]; [left | by right].
  destruct x as [| | |a], y as [| | |b]; try done.
  cbn [round leb] in *. q_props. rewrite <- Zle_Qle.
  apply Qfloor_resp_le. lra.
Qed.

Lemma nondecreasing_mul_pos (c : Q) (x y : num) :
  (0 < c)%Q ->
  nondecreasing x y -> nondecreasing (x * Fin c)%js (y * Fin c)%js.
Proof.
  intros Hc H. destruct (positive_consts c Hc) as (E1 & E2 & E3).
  destruct x, y; unfold nondecreasing in *; simpl in *; rewrite ?E1; simpl;
    destruct H as [H | [? ?]]; try discriminate; auto.
  left. q_props. by apply Qmult_le_compat_r; [|lra].
Qed.

Lemma nondecreasing_div_pos (c : Q) (x y : num) :
  (0 < c)%Q ->
  nondecreasing x y -> nondecreasing (x / Fin c)%js (y / Fin c)%js.
Proof.
  intros Hc H. destruct (positive_consts c Hc) as (E1 & E2 & E3).
  destruct x, y; unfold nondecreasing in *; simpl in *; rewrite ?E2, ?E3;
    simpl; destruct H as [H | [? ?]]; try discriminate; auto.
  left. q_props. unfold Qdiv.
  apply Qmult_le_compat_r; [done|]. apply Qlt_le_weak.
  by apply Qinv_lt_0_compat.
Qed.

(** Adding the same finite or [NaN] term on the right. *)
Lemma nondecreasing_add_r (c x y : num) :
  c <> PInf -> c <> NInf ->
  nondecreasing x y -> nondecreasing (x + c)%js (y + c)%js.
Proof. intros ?? H. destruct c, x, y; nd_cases. Qed.

(** Adding finite terms to the same score. *)
Lemma nondecreasing_add_l (p x y : num) :
  isFinite x = true -> isFinite y = true ->
  nondecreasing x y -> nondecreasing (p + x)%js (p + y)%js.
Proof. intros ?? H. destruct p, x, y; nd_cases. Qed.

Lemma nondecreasing_add_fin_l (p : Q) (x y : num) :
  nondecreasing x y -> nondecreasing (Fin p + x)%js (Fin p + y)%js.
Proof. intros H. destruct x, y; nd_cases. Qed.

End JsNumFacts.

(** ** Rate estimator *)

Section RateEstimator.
Import JsNumFacts.

Lemma two_latest (snapshots : list Snapshot) :
  (2 <= length snapshots)%nat ->
  exists older prev latest, snapshots = older ++ [prev; latest].
Proof.
  intros Hlen.
  destruct snapshots as [|latest rest _] using rev_ind;
    [simpl in Hlen; lia|].
  destruct rest as [|prev older _] using rev_ind;
    [simpl in Hlen; lia|].
  exists older, prev, latest. by rewrite <- app_assoc.
Qed.

(** [measuredNetRate] on a store whose two most recent entries are
    [prev] and [latest]. *)
Lemma measuredNetRate_two older prev latest planetIndex maxHealth :
  measuredNetRate (older ++ [prev; latest]) planetIndex maxHealth
  = match snap_health latest !! planetIndex,
          snap_health prev !! planetIndex with
    | Some latestHealth, Some prevHealth =>
        if bool_decide (ts latest - ts prev < 7200)%Z then None
        else Some ((Fin prevHealth - Fin latestHealth) / maxHealth
                   * Fin 100
                   / ((of_Z (ts latest) - of_Z (ts prev)) / Fin 3600000))%js
    | _, _ => None
    end.
Proof.
  assert (Hlatest : (older ++ [prev; latest])
                    !! (length (older ++ [prev; latest]) - 1)%nat
                    = Some latest).
  { rewrite length_app, lookup_app_r by (simpl; lia).
    by replace (length older + length [prev; latest] - 1 - length older)%nat
      with 1%nat by (simpl; lia). }
  assert (Hprev : (older ++ [prev; latest])
                  !! (length (older ++ [prev; latest]) - 2)%nat
                  = Some prev).
  { rewrite length_app, lookup_app_r by (simpl; lia).
    by replace (length older + length [prev; latest] - 2 - length older)%nat
      with 0%nat by (simpl; lia). }
  unfold measuredNetRate.
  rewrite decide_False by (rewrite length_app; simpl; lia).
  rewrite Hlatest, Hprev. cbv beta iota zeta.
  destruct (snap_health latest !! planetIndex) as [latestHealth|]; [|done].
  destruct (snap_health prev !! planetIndex) as [prevHealth|]; [|done].
  by rewrite elapsed_hours_short.
Qed.

(** C7.  [measuredNetRate] returns the no-data result exactly when fewer
    than 2 snapshots are stored, or one of the two most recent snapshots
    has no health entry for the planet, or they are less than 7.2
    seconds apart; in every other case it returns
    [((previousHealth - latestHealth) / maxHealth) * 100 / elapsedHours]. *)
Theorem measuredNetRate_spec snapshots planetIndex maxHealth :
  (measuredNetRate snapshots planetIndex maxHealth = None <->
     (length snapshots < 2)%nat \/
     exists older prev latest,
       snapshots = older ++ [prev; latest] /\
       (snap_health latest !! planetIndex = None \/
        snap_health prev !! planetIndex = None \/
        (ts latest - ts prev < 7200)%Z))
  /\
  (forall older prev latest prevHealth latestHealth,
     snapshots = older ++ [prev; latest] ->
     snap_health prev !! planetIndex = Some prevHealth ->
     snap_health latest !! planetIndex = Some latestHealth ->
     (7200 <= ts latest - ts prev)%Z ->
     measuredNetRate snapshots planetIndex maxHealth
     = Some ((Fin prevHealth - Fin latestHealth) / maxHealth
             * Fin 100
             / ((of_Z (ts latest) - of_Z (ts prev)) / Fin 3600000))%js).
Proof.
  split.
  - split.
    + intros Hnone.
      destruct (decide (length snapshots < 2)%nat) as [|Hlen]; [by left|].
      right. destruct (two_latest snapshots) as (older & prev & latest & ->);
        [lia|].
      exists older, prev, latest. split; [done|].
      rewrite measuredNetRate_two in Hnone.
      destruct (snap_health latest !! planetIndex); [|by left].
      destruct (snap_health prev !! planetIndex); [|by right; left].
      case_bool_decide; [by right; right | discriminate].
    + intros [Hlen | (older & prev & latest & -> & Hcase)].
      * unfold measuredNetRate. by rewrite decide_True.
      * rewrite measuredNetRate_two.
        destruct (snap_health latest !! planetIndex); [|done].
        destruct (snap_health prev !! planetIndex); [|done].
        destruct Hcase as [? | [? | Hshort]]; [done | done |].
        by rewrite bool_decide_eq_true_2.
  - intros older prev latest prevHealth latestHealth -> Hprev Hlatest Hapart.
    rewrite measuredNetRate_two, Hprev, Hlatest.
    by rewrite bool_decide_eq_false_2 by lia.
Qed.

End RateEstimator.

Lemma measuredNetRate_spec_witness :
  let prev := {| ts := 0; snap_health := {[ 1%Z := 1000%Q ]};
                 snap_players := ∅ |} in
  let latest := {| ts := 3600000; snap_health := {[ 1%Z := 900%Q ]};
                   snap_players := ∅ |} in
  measuredNetRate [prev; latest] 1 (Fin 1000)
  = Some ((Fin 1000 - Fin 900) / Fin 1000 * Fin 100
          / ((of_Z 3600000 - of_Z 0) / Fin 3600000))%js.
Proof.
  intros prev latest.
  destruct (measuredNetRate_spec [prev; latest] 1 (Fin 1000)) as [_ Hrate].
  apply (Hrate [] prev latest 1000%Q 900%Q);
    [reflexivity | by vm_compute | by vm_compute | simpl; lia].
Defined.

Section EstimatedRate.
Import JsNum JsNumFacts.

(** C2, as stated, fails on the example input: the decay rate is not
    0.36 %/h and the net value is not 1.64 %/h. *)
Lemma estimatedNetRate_example_refuted :
  sameb (decayPctHr_of example_planet) (Fin 0.36) = false
  /\ (fun v => sameb v (Fin 1.64)) <$> value (estimatedNetRate example_planet)
     = Some false.
Proof. split; reflexivity. Qed.

Lemma estimatedNetRate_finite planet :
  ~ (maxHealth planet == 0)%Q ->
  estimatedNetRate planet
  = {| value :=
         Some (Fin (default 0%Q (playerCount planet) / 10000 * 1.0
                    - regenPerSecond planet * 3600 / maxHealth planet
                      * 100));
       estimated := true |}.
Proof.
  intros Hmax. apply Qeq_bool_false in Hmax.
  unfold estimatedNetRate, decayPctHr_of. cbn [sub add neg mul div].
  change (Qeq_bool 10000 0) with false. rewrite Hmax. reflexivity.
Qed.

(** C2, amended.  [estimatedNetRate] returns
    [{ value: playerRate - decayRate, estimated: true }] with
    [decayRate = (regenPerSecond * 3600 / maxHealth) * 100] and
    [playerRate = playerCount / 10000] (for a planet whose [maxHealth]
    is not zero these are finite numbers); on the example input the
    decay rate is 0.00036 %/h, the player rate 2.0 %/h and the net value
    1.99964 %/h, with [estimated = true]. *)
Theorem estimatedNetRate_formula :
  (forall planet,
      estimatedNetRate planet
      = {| value := Some ((Fin (default 0%Q (playerCount planet))
                           / Fin 10000) * Fin 1.0
                          - (Fin (regenPerSecond planet) * Fin 3600
                             / Fin (maxHealth planet)) * Fin 100)%js;
           estimated := true |})
  /\ (forall planet,
      ~ (maxHealth planet == 0)%Q ->
      estimatedNetRate planet
      = {| value :=
             Some (Fin (default 0%Q (playerCount planet) / 10000 * 1.0
                        - regenPerSecond planet * 3600 / maxHealth planet
                          * 100));
           estimated := true |})
  /\ sameb (decayPctHr_of example_planet) (Fin 0.00036) = true
  /\ sameb (Fin 20000 / Fin 10000 * Fin 1.0)%js (Fin 2.0) = true
  /\ (fun v => sameb v (Fin 1.99964))
       <$> value (estimatedNetRate example_planet) = Some true
  /\ estimated (estimatedNetRate example_planet) = true.
Proof.
  split; [done|].
  split; [apply estimatedNetRate_finite | by repeat split].
Qed.

Lemma estimatedNetRate_formula_witness :
  estimatedNetRate example_planet
  = {| value := Some (Fin (20000 / 10000 * 1.0
                           - 0.001 * 3600 / 1000000 * 100));
       estimated := true |}.
Proof.
  destruct estimatedNetRate_formula as (_ & Hformula & _).
  apply (Hformula example_planet). by vm_compute.
Defined.

End EstimatedRate.

(** ** Requirement calculator *)

Section Requirements.
Import JsNum JsNumFacts.

(** C4, as stated, fails: a multiplier that is present and not positive is
    passed on as it is, and the fallback path then returns no result. *)
Lemma nonpositive_impact_gives_no_requirements :
  playerReqs <$> detectGambits [] 0 [campaign_of example_planet] []
                   (Some {| impactMultiplier := Some 0%Q |}) = [None]
  /\ playerReqs <$> detectGambits [] 0 [campaign_of example_planet] []
                      (Some {| impactMultiplier := Some (-0.001)%Q |}) = [None].
Proof. split; reflexivity. Qed.

(** C4, amended.  When [war] or [war.impactMultiplier] is absent the
    default 0.005 is used, and the fallback path of
    [calcPlayerRequirements] returns
    [{ min = ceil(decayRate / (0.005 * 0.25)), recommended = min * 3,
       estimated: true }];
    a multiplier that is present is used as it is: the fallback path
    returns the same record computed from it when it is positive and
    no result when it is zero or negative. *)
Theorem fallback_requirements snapshots planet netRateObj war :
  (length snapshots < 2)%nat \/ estimated netRateObj = true ->
  calcPlayerRequirements snapshots planet netRateObj (Some (impactOf war))
  = let requirements (imp : num) :=
      let min := ceil (decayPctHr_of planet / (imp * Fin 0.25))%js in
      {| pr_min := min; pr_recommended := (min * Fin 3)%js;
         pr_estimated := true |} in
    match war ≫= impactMultiplier with
    | None => Some (requirements (Fin 0.005))
    | Some m => if Qle_bool m 0 then None else Some (requirements (Fin m))
    end.
Proof.
  intros Hfallback. unfold calcPlayerRequirements, impactOf.
  replace (bool_decide (2 <= length snapshots)%nat
           && negb (estimated netRateObj)) with false.
  2: { destruct Hfallback as [Hfew | ->].
       - by rewrite bool_decide_eq_false_2 by lia.
       - by rewrite andb_false_r. }
  cbv zeta. destruct (war ≫= impactMultiplier) as [m|]; simpl.
  - by destruct (Qle_bool m 0).
  - reflexivity.
Qed.

Lemma fallback_requirements_witness :
  calcPlayerRequirements [] example_planet (estimatedNetRate example_planet)
    (Some (impactOf None))
  = Some {| pr_min := ceil (decayPctHr_of example_planet
                            / (Fin 0.005 * Fin 0.25))%js;
            pr_recommended :=
              (ceil (decayPctHr_of example_planet
                     / (Fin 0.005 * Fin 0.25)) * Fin 3)%js;
            pr_estimated := true |}.
Proof.
  apply (fallback_requirements [] example_planet
           (estimatedNetRate example_planet) None).
  left. simpl. lia.
Defined.

End Requirements.

(** ** Sorting *)

Section SortFacts.
Context {A : Type} (comparefn : A -> A -> num).

Lemma insert_perm (x : A) (l : list A) :
  JsArray.insert comparefn x l ≡ₚ x :: l.
Proof.
  induction l as [|y l IH]; simpl; [done|].
  case_match; [|done].
  by rewrite IH, Permutation_swap.
Qed.

Lemma sort_perm (l : list A) : JsArray.sort comparefn l ≡ₚ l.
Proof.
  induction l as [|x l IH]; simpl; [done|].
  by rewrite insert_perm, IH.
Qed.

Lemma elem_of_sort (x : A) (l : list A) :
  x ∈ JsArray.sort comparefn l <-> x ∈ l.
Proof. by rewrite sort_perm. Qed.

End SortFacts.

(** ** Gambit detection: which campaigns yield an entry *)

Section Detection.

(** C1, as stated, fails: a liberation campaign with zero progress and no
    supply-line-connected defense still yields a gambit entry. *)
Lemma zero_progress_unconnected_kept :
  (fun g => (libCampaign g, connectedDefenses g,
             JsNum.sameb (g_libPct g) (Fin 0)))
    <$> detectGambits [] 0 [campaign_of untouched_planet]
          [campaign_of (defended_planet 20 [21%Z] 86400000)] None
  = [(campaign_of untouched_planet, [], true)].
Proof. reflexivity. Qed.

Lemma libCampaign_analyse snapshots now libs defs imp (l : list Campaign) :
  libCampaign <$> imap (analyse snapshots now libs defs imp) l = l.
Proof.
  rewrite fmap_imap.
  rewrite (imap_ext _ (const id)) by done.
  by rewrite imap_const, list_fmap_id.
Qed.

(** C1, amended.  Every liberation campaign yields exactly one gambit
    entry, whatever its progress and whether or not a defense campaign is
    connected to it (no campaign is excluded); each entry carries the
    defense campaigns that share a supply line with its planet and the
    planet's liberation percentage.  In particular a zero-progress
    campaign with a connected defense yields an entry. *)
Theorem detectGambits_keeps_every_campaign snapshots now libs defs war :
  libCampaign <$> detectGambits snapshots now libs defs war ≡ₚ libs
  /\ Forall (fun g =>
               connectedDefenses g
               = filter (fun dc => supplyLinked (planet (libCampaign g))
                                     (planet dc) = true) defs
               /\ g_libPct g = libPct (planet (libCampaign g)))
            (detectGambits snapshots now libs defs war).
Proof.
  unfold detectGambits. cbv zeta. split.
  - by rewrite sort_perm, libCampaign_analyse.
  - rewrite sort_perm. apply Forall_forall.
    intros g (i & lc & -> & _)%elem_of_lookup_imap_1. done.
Qed.

End Detection.

(** ** Strategic scout *)

Section Scout.

Lemma toLowerCase_nonempty (s : string) :
  JsStr.truthy (JsStr.toLowerCase s) = true -> s <> ""%string.
Proof. by destruct s. Qed.

(** Every planet in the lookup table sits under its own index. *)
Lemma planetByIndex_index (allPlanets : list Planet) (m : gmap Z Planet) :
  (forall i p, m !! i = Some p -> index p = i) ->
  forall i p,
    foldl (fun m p => <[index p := p]> m) m allPlanets !! i = Some p ->
    index p = i.
Proof.
  revert m. induction allPlanets as [|q allPlanets IH]; intros m Hm; simpl;
    [done|].
  apply IH. intros i p.
  destruct (decide (index q = i)) as [<-|Hne].
  - rewrite lookup_insert_eq. by intros [= <-].
  - rewrite lookup_insert_ne by done. apply Hm.
Qed.

Lemma scoutCandidate_Some activePlanetIndices planetByIndex idx t :
  scoutCandidate activePlanetIndices planetByIndex idx = Some t ->
  (idx ∉ activePlanetIndices)
  /\ planetByIndex !! idx = Some (target_planet t)
  /\ exists owner,
       currentOwner (target_planet t) = Some owner
       /\ owner <> ""%string
       /\ JsStr.includes "human" (JsStr.toLowerCase owner) = false.
Proof.
  unfold scoutCandidate. case_decide as Hactive; [done|].
  destruct (planetByIndex !! idx) as [planet|]; [|done]. cbv zeta.
  destruct (orb _ _) eqn:Hskip; [done|].
  intros [= <-]. simpl. repeat split; [done|].
  apply orb_false_iff in Hskip as [Hown%negb_false_iff Hhuman].
  destruct (currentOwner planet) as [owner|]; [|done].
  exists owner. eauto using toLowerCase_nonempty.
Qed.

(** C8.  No target of any result of [detectScoutTargets] is the planet of
    an active liberation or defense campaign, and every target has a
    recorded, non-empty owner that is not the friendly (human) faction. *)
Theorem scout_targets_uncontested_enemy defs libs allPlanets r t :
  r ∈ detectScoutTargets defs libs allPlanets ->
  t ∈ targets r ->
  (forall c, c ∈ libs ++ defs ->
             index (planet c) <> index (target_planet t))
  /\ exists owner,
       currentOwner (target_planet t) = Some owner
       /\ owner <> ""%string
       /\ JsStr.includes "human" (JsStr.toLowerCase owner) = false.
Proof.
  unfold detectScoutTargets. cbv zeta.
  rewrite elem_of_sort, list_elem_of_omap.
  intros (dc & _ & Hr) Ht.
  destruct (0 <? length _)%nat in Hr; [|done].
  injection Hr as <-. simpl in Ht.
  apply elem_of_sort, list_elem_of_omap in Ht as (idx & _ & Hcand).
  apply scoutCandidate_Some in Hcand as (Hactive & Hlookup & Howner).
  split; [|done].
  apply planetByIndex_index in Hlookup; [|by intros ??; rewrite lookup_empty].
  intros c Hc Heq. apply Hactive.
  rewrite elem_of_list_to_set, <- Hlookup, <- Heq.
  change (index (planet c) ∈
            ((fun c => index (planet c)) <$> libs)
            ++ ((fun c => index (planet c)) <$> defs)).
  rewrite <- fmap_app.
  by apply (list_elem_of_fmap_2 (fun c => index (planet c))).
Qed.

Lemma scout_targets_uncontested_enemy_witness :
  let defense := campaign_of (defended_planet 20 [21%Z] 86400000) in
  let t := {| target_planet := enemy_planet 21 [];
              decayPctHr := Some (Fin 0.000360000) |} in
  (forall c, c ∈ [campaign_of untouched_planet] ++ [defense] ->
             index (planet c) <> 21%Z)
  /\ exists owner,
       Some "Automaton"%string = Some owner
       /\ owner <> ""%string
       /\ JsStr.includes "human" (JsStr.toLowerCase owner) = false.
Proof.
  intros defense t.
  apply (scout_targets_uncontested_enemy [defense]
           [campaign_of untouched_planet]
           [defended_planet 20 [21%Z] 86400000; enemy_planet 21 []]
           {| defenseCampaign := defense; targets := [t] |} t).
  - vm_compute. left.
  - left.
Defined.

End Scout.

(** ** Gambit detection and the clock *)

Section Clock.

(** C10, as stated, fails: the same arguments and the same (empty)
    snapshot store give different results at two clock readings, 30 hours
    apart, because the score weighs the time the connected defense has
    left. *)
Lemma detectGambits_depends_on_clock :
  let libs := [campaign_of contested_planet] in
  let defs := [campaign_of (defended_planet 20 [] 144000000)] in
  successPct <$> detectGambits [] 0 libs defs None = [Fin 69]
  /\ successPct <$> detectGambits [] 108000000 libs defs None = [Fin 25].
Proof. split; reflexivity. Qed.

Lemma buildConditions_clock now1 now2 libCampaign netRateObj timeToComplete
    connectedDefenses playerReqs :
  map (defenseHours now1) connectedDefenses
  = map (defenseHours now2) connectedDefenses ->
  buildConditions now1 libCampaign netRateObj timeToComplete
    connectedDefenses playerReqs
  = buildConditions now2 libCampaign netRateObj timeToComplete
      connectedDefenses playerReqs.
Proof. intros Hhours. unfold buildConditions. by rewrite Hhours. Qed.

Lemma calcSuccessPct_clock now1 now2 libPct_ netRate timeToComplete
    connectedDefenses conditions :
  map (defenseHours now1) connectedDefenses
  = map (defenseHours now2) connectedDefenses ->
  calcSuccessPct now1 libPct_ netRate timeToComplete connectedDefenses
    conditions
  = calcSuccessPct now2 libPct_ netRate timeToComplete connectedDefenses
      conditions.
Proof. intros Hhours. unfold calcSuccessPct. by rewrite Hhours. Qed.

Lemma defenseHours_untimed now1 now2 (defs : list Campaign) P
    `{!forall dc, Decision (P dc)} :
  Forall (fun dc => event (planet dc) ≫= endTime = None) defs ->
  map (defenseHours now1) (filter P defs)
  = map (defenseHours now2) (filter P defs).
Proof.
  intros Huntimed. apply map_ext_in. intros dc Hdc%list_elem_of_In.
  apply list_elem_of_filter in Hdc as [_ Hdc].
  rewrite Forall_forall in Huntimed. unfold defenseHours.
  by rewrite (Huntimed dc Hdc).
Qed.

(** C10, amended.  A detection pass is a function of its explicit inputs,
    the snapshot history (which it only reads) and the clock reading
    [Date.now()] that [hoursLeft] takes for the expiry of defenses: two
    calls with identical campaigns, war and snapshot contents produce
    equal results when made at the same clock reading, and at any two
    clock readings when no defense campaign carries an expiry time. *)
Theorem detectGambits_deterministic snapshots libs defs war now1 now2 :
  now1 = now2
  \/ Forall (fun dc => event (planet dc) ≫= endTime = None) defs ->
  detectGambits snapshots now1 libs defs war
  = detectGambits snapshots now2 libs defs war.
Proof.
  intros [-> | Huntimed]; [done|].
  unfold detectGambits. cbv zeta. f_equal.
  apply imap_ext. intros i lc _. unfold analyse. cbv zeta.
  set (connected := filter _ defs).
  assert (Hhours : map (defenseHours now1) connected
                   = map (defenseHours now2) connected)
    by by apply defenseHours_untimed.
  rewrite (buildConditions_clock now1 now2) by done.
  by rewrite (calcSuccessPct_clock now1 now2) by done.
Qed.

Lemma detectGambits_deterministic_witness :
  let untimed :=
    campaign_of
      {| index := 20; health := 1000000; maxHealth := 1000000;
         regenPerSecond := 0; playerCount := Some 3000%Q;
         currentOwner := Some "Humans"%string; waypoints := None;
         event := Some {| endTime := None |} |} in
  detectGambits [] 0 [campaign_of contested_planet] [untimed] None
  = detectGambits [] 108000000 [campaign_of contested_planet] [untimed] None.
Proof.
  intros untimed.
  apply (detectGambits_deterministic [] [campaign_of contested_planet]
           [untimed] None 0 108000000).
  right. by repeat constructor.
Defined.

End Clock.

(** ** The score *)

Section Score.
Import JsNum JsNumFacts.

Lemma calcSuccessPct_components now libPct_ netRate timeToComplete
    connectedDefenses conditions :
  calcSuccessPct now libPct_ netRate timeToComplete connectedDefenses
    conditions
  = clamp_score
      (add_component
         (add_component
            (add_component (Fin 0 + progressComponent libPct_)%js
               (rateComponent netRate))
            (timeComponent now timeToComplete connectedDefenses))
         (conditionComponent conditions)).
Proof.
  unfold calcSuccessPct, clamp_score, add_component, rateComponent,
    timeComponent, conditionComponent, progressComponent.
  cbv zeta.
  destruct netRate as [r|], timeToComplete as [t|];
    repeat case_match; try discriminate; simplify_eq; reflexivity.
Qed.

(** *** The components are finite unless the net rate is [NaN] *)

Lemma defenseHours_shape now dc :
  isFinite (defenseHours now dc) = true \/ defenseHours now dc = PInf.
Proof.
  unfold defenseHours, hoursLeft, of_Z.
  destruct (event (planet dc) ≫= endTime); [left | by right]. reflexivity.
Qed.

Lemma min_list_defenseHours_shape now connectedDefenses :
  let m := min_list (map (defenseHours now) connectedDefenses) in
  isFinite m = true \/ m = PInf.
Proof.
  induction connectedDefenses as [|dc l IH]; simpl in *; [by right|].
  destruct (defenseHours_shape now dc) as [Hdc | ->], IH as [IH | ->].
  - destruct (defenseHours now dc), (min_list _); try done.
    simpl. case_match; by left.
  - destruct (defenseHours now dc); try done. by left.
  - destruct (min_list _); try done. by left.
  - by right.
Qed.

Lemma rateComponent_finite r c :
  is_nan r = false -> rateComponent (Some r) = Some c -> isFinite c = true.
Proof.
  intros Hr [= <-]. destruct r as [| | |q]; try done.
  unfold gtb. simpl. q_split; reflexivity.
Qed.

Lemma timeComponent_finite now timeToComplete connectedDefenses c :
  timeComponent now timeToComplete connectedDefenses = Some c ->
  isFinite c = true.
Proof.
  unfold timeComponent. destruct timeToComplete as [[| | |t]|]; try done.
  cbn [isFinite]. cbv zeta.
  destruct (0 <? length connectedDefenses)%nat.
  - destruct (min_list_defenseHours_shape now connectedDefenses) as [Hm | ->].
    + destruct (min_list _) as [| | |m]; try done.
      case_match; intros [= <-]; [|done].
      simpl. q_split; reflexivity.
    + intros [= <-]. reflexivity.
  - intros [= <-]. simpl. q_split; reflexivity.
Qed.

Lemma conditionComponent_finite conditions c :
  conditionComponent conditions = Some c -> isFinite c = true.
Proof.
  unfold conditionComponent, of_nat.
  destruct (0 <? length conditions)%nat eqn:Hlen; [|done].
  apply Nat.ltb_lt in Hlen. intros [= <-]. cbn [div mul].
  replace (Qeq_bool (inject_Z (Z.of_nat (length conditions))) 0) with false;
    [reflexivity|].
  symmetry. apply Qeq_bool_false. unfold Qeq. simpl. lia.
Qed.

(** *** Monotonicity *)

Lemma finite_not_inf (c : num) : isFinite c = true -> c <> PInf /\ c <> NInf.
Proof. by destruct c. Qed.

Lemma nondecreasing_add_component (x y : num) (component : option num) :
  (forall c, component = Some c -> c <> PInf /\ c <> NInf) ->
  nondecreasing x y ->
  nondecreasing (add_component x component) (add_component y component).
Proof.
  intros Hc Hxy. destruct component as [c|]; simpl; [|done].
  destruct (Hc c eq_refl). by apply nondecreasing_add_r.
Qed.

Lemma rateComponent_not_inf r c :
  rateComponent r = Some c -> c <> PInf /\ c <> NInf.
Proof.
  destruct r as [r|]; [|done].
  destruct (is_nan r) eqn:Hnan.
  - destruct r; try done. by intros [= <-].
  - intros Hc. eauto using finite_not_inf, rateComponent_finite.
Qed.

Lemma clamp_score_nondecreasing (x y : num) :
  nondecreasing x y -> nondecreasing (clamp_score x) (clamp_score y).
Proof.
  intros Hxy. unfold clamp_score.
  by apply nondecreasing_max_l, nondecreasing_min_l, nondecreasing_round.
Qed.

Lemma progressComponent_nondecreasing (l1 l2 : num) :
  (l1 <= l2)%js = true ->
  nondecreasing (progressComponent l1) (progressComponent l2).
Proof.
  intros Hle. unfold progressComponent.
  apply nondecreasing_mul_pos; [done|].
  apply nondecreasing_div_pos; [done|].
  apply nondecreasing_min_r. by left.
Qed.

Lemma positive_rate_component (r : num) :
  (r > Fin 0)%js = true ->
  rateComponent (Some r)
  = Some (min (r / Fin 5) (Fin 1) * Fin 30)%js
  /\ isFinite (min (r / Fin 5) (Fin 1) * Fin 30)%js = true.
Proof.
  intros Hpos. unfold rateComponent. rewrite Hpos. split; [done|].
  destruct r as [| | |q]; try done. simpl. q_split; reflexivity.
Qed.

(** C9.  [calcSuccessPct] is non-decreasing in its [libPct] argument with
    the other arguments fixed, and, for net rates above 0, non-decreasing
    in its [netRate] argument with the other arguments fixed. *)
Theorem calcSuccessPct_monotone now timeToComplete connectedDefenses
    conditions :
  (forall netRate l1 l2,
      (l1 <= l2)%js = true ->
      nondecreasing
        (calcSuccessPct now l1 netRate timeToComplete connectedDefenses
           conditions)
        (calcSuccessPct now l2 netRate timeToComplete connectedDefenses
           conditions))
  /\ (forall libPct_ r1 r2,
         (r1 > Fin 0)%js = true ->
         (r1 <= r2)%js = true ->
         nondecreasing
           (calcSuccessPct now libPct_ (Some r1) timeToComplete
              connectedDefenses conditions)
           (calcSuccessPct now libPct_ (Some r2) timeToComplete
              connectedDefenses conditions)).
Proof.
  split.
  - intros netRate l1 l2 Hle. rewrite !calcSuccessPct_components.
    apply clamp_score_nondecreasing.
    apply nondecreasing_add_component;
      [eauto using finite_not_inf, conditionComponent_finite|].
    apply nondecreasing_add_component;
      [eauto using finite_not_inf, timeComponent_finite|].
    apply nondecreasing_add_component; [apply rateComponent_not_inf|].
    by apply nondecreasing_add_fin_l, progressComponent_nondecreasing.
  - intros libPct_ r1 r2 Hpos Hle. rewrite !calcSuccessPct_components.
    assert (Hpos2 : (r2 > Fin 0)%js = true).
    { destruct r1, r2; try done. unfold gtb in *. simpl in *.
      q_props. lra. }
    destruct (positive_rate_component r1 Hpos) as [-> Hfin1].
    destruct (positive_rate_component r2 Hpos2) as [-> Hfin2].
    apply clamp_score_nondecreasing.
    apply nondecreasing_add_component;
      [eauto using finite_not_inf, conditionComponent_finite|].
    apply nondecreasing_add_component;
      [eauto using finite_not_inf, timeComponent_finite|].
    cbn [add_component]. apply nondecreasing_add_l; [done..|].
    apply nondecreasing_mul_pos; [done|].
    apply nondecreasing_min_r, nondecreasing_div_pos; [done|]. by left.
Qed.

Lemma calcSuccessPct_monotone_witness :
  nondecreasing
    (calcSuccessPct 0 (Fin 10) (Some (Fin 2)) (Some (Fin 45)) [] [])
    (calcSuccessPct 0 (Fin 60) (Some (Fin 2)) (Some (Fin 45)) [] [])
  /\ nondecreasing
       (calcSuccessPct 0 (Fin 40) (Some (Fin 1)) (Some (Fin 45)) [] [])
       (calcSuccessPct 0 (Fin 40) (Some (Fin 4)) (Some (Fin 45)) [] []).
Proof.
  destruct (calcSuccessPct_monotone 0 (Some (Fin 45)) [] []) as [Hlib Hrate].
  split.
  - apply (Hlib (Some (Fin 2)) (Fin 10) (Fin 60)). reflexivity.
  - apply (Hrate (Fin 40) (Fin 1) (Fin 4)); reflexivity.
Defined.

(** *** Range *)

(** [libPct] lies in [0, 100] for every planet record. *)
Lemma libPct_range planet :
  exists q, libPct planet = Fin q /\ (0 <= q <= 100)%Q.
Proof.
  unfold libPct. cbn [truthy].
  destruct (Qeq_bool (maxHealth planet) 0) eqn:Hmax; cbn [negb].
  - exists 0%Q. split; [done | lra].
  - cbn [div]. rewrite Hmax.
    generalize (health planet / maxHealth planet)%Q as x. intros x.
    cbn [sub add neg mul min max ltb].
    q_split; eexists; (split; [reflexivity|]); q_props; lra.
Qed.

Lemma clamp_score_range (score : num) :
  is_nan score = false ->
  exists z, (0 <= z <= 100)%Z /\ clamp_score score = Fin (inject_Z z).
Proof.
  intros Hnan. destruct score as [| | |q]; [done | by exists 100%Z
                                           | by exists 0%Z |].
  unfold clamp_score. cbn [round].
  generalize (Qfloor (q + (1 # 2))) as z. intros z.
  cbn [min max ltb].
  destruct (Qltb (inject_Z z) 100) eqn:Hhi; q_props.
  - change 100%Q with (inject_Z 100) in Hhi. rewrite <- Zlt_Qlt in Hhi.
    destruct (Qltb 0 (inject_Z z)) eqn:Hlo; q_props.
    + change 0%Q with (inject_Z 0) in Hlo. rewrite <- Zlt_Qlt in Hlo.
      exists z. split; [lia | done].
    + by exists 0%Z.
  - by exists 100%Z.
Qed.

Lemma bounded_above_add (x c : num) :
  bounded_above x -> isFinite c = true -> bounded_above (x + c)%js.
Proof.
  intros [-> | Hx] Hc; destruct c; try done; [by left|].
  destruct x; try done. by right.
Qed.

Lemma bounded_above_add_component (x : num) (component : option num) :
  (forall c, component = Some c -> isFinite c = true) ->
  bounded_above x -> bounded_above (add_component x component).
Proof.
  intros Hc Hx. destruct component as [c|]; simpl; [|done].
  apply bounded_above_add; auto.
Qed.

Lemma progressComponent_bounded (libPct_ : num) :
  is_nan libPct_ = false ->
  bounded_above (Fin 0 + progressComponent libPct_)%js.
Proof.
  intros Hnan. unfold progressComponent.
  destruct libPct_ as [| | |q]; [done | by right | by left |].
  right. simpl. q_split; reflexivity.
Qed.

(** The score is an integer in [0, 100] whenever neither the liberation
    percentage nor the net rate it is given is [NaN]. *)
Lemma calcSuccessPct_range now libPct_ netRate timeToComplete
    connectedDefenses conditions :
  is_nan libPct_ = false ->
  (forall r, netRate = Some r -> is_nan r = false) ->
  exists z, (0 <= z <= 100)%Z
            /\ calcSuccessPct now libPct_ netRate timeToComplete
                 connectedDefenses conditions = Fin (inject_Z z).
Proof.
  intros Hlib Hrate. rewrite calcSuccessPct_components.
  apply clamp_score_range.
  assert (Hscore : forall x, bounded_above x -> is_nan x = false)
    by (intros x [-> | Hx]; [done | by destruct x]).
  apply Hscore.
  apply bounded_above_add_component; [apply conditionComponent_finite|].
  apply bounded_above_add_component; [apply timeComponent_finite|].
  apply bounded_above_add_component;
    [|by apply progressComponent_bounded].
  intros c Hc. destruct netRate as [r|]; [|done].
  eauto using rateComponent_finite.
Qed.

End Score.

(** ** The scores of a detection pass *)

Section Scores.
Import JsNum JsNumFacts.

Lemma measuredNetRate_finite snapshots planetIndex (maxHealth : Q) r :
  ~ (maxHealth == 0)%Q ->
  measuredNetRate snapshots planetIndex (Fin maxHealth) = Some r ->
  isFinite r = true.
Proof.
  intros Hmax%Qeq_bool_false Hr.
  destruct (decide (length snapshots < 2)%nat) as [Hfew|Hlen].
  { unfold measuredNetRate in Hr. by rewrite decide_True in Hr. }
  destruct (two_latest snapshots) as (older & prev & latest & ->); [lia|].
  rewrite measuredNetRate_two in Hr.
  destruct (snap_health latest !! planetIndex) as [latestHealth|]; [|done].
  destruct (snap_health prev !! planetIndex) as [prevHealth|]; [|done].
  case_bool_decide as Hshort; [done|]. injection Hr as <-.
  unfold of_Z. cbn [sub add neg div mul]. rewrite Hmax.
  change (Qeq_bool 3600000 0) with false. cbn [mul div].
  replace (Qeq_bool _ 0) with false; [done|].
  symmetry. apply Qeq_bool_false.
  assert (Hq : (inject_Z (ts latest) + - inject_Z (ts prev)
                == inject_Z (ts latest - ts prev))%Q).
  { unfold Z.sub. by rewrite inject_Z_plus, inject_Z_opp. }
  rewrite Hq.
  assert (inject_Z 7200 <= inject_Z (ts latest - ts prev))%Q
    by (rewrite <- Zle_Qle; lia).
  change (inject_Z 7200) with 7200%Q in *. clear Hq.
  generalize dependent (inject_Z (ts latest - ts prev)). intros; q_arith.
Qed.

(** The failing input of C5: a planet record with [maxHealth = 0] and
    [regenPerSecond = 0] gets the score [NaN], which is neither an
    integer nor in [0, 100]; the estimated net rate [0 - 0 * 3600 / 0 * 100]
    is [NaN], and the clamp of [calcSuccessPct] lets it through. *)
Lemma successPct_of_hollow_planet :
  value (estimatedNetRate hollow_planet) = Some NaN
  /\ calcSuccessPct 0 (Fin 0) (Some NaN) None [] [] = NaN
  /\ successPct <$> detectGambits [] 0 [campaign_of hollow_planet] [] None
     = [NaN].
Proof. repeat split. Qed.

(** Away from that input the scores are as specified: when every planet
    under liberation has a [maxHealth] other than zero, every score of the
    pass is an integer in [0, 100]. *)
Lemma analyse_score_range snapshots now libs defs imp i lc :
  ~ (maxHealth (planet lc) == 0)%Q ->
  exists z, (0 <= z <= 100)%Z
            /\ successPct (analyse snapshots now libs defs imp i lc)
               = Fin (inject_Z z).
Proof.
  intros Hmax. unfold analyse. cbv zeta. cbn [successPct].
  apply calcSuccessPct_range.
  - by destruct (libPct_range (planet lc)) as (q & -> & _).
  - intros r.
    destruct (measuredNetRate _ _ _) as [m|] eqn:Hm; cbn [value].
    + intros [= <-]. apply measuredNetRate_finite in Hm; [|done].
      by destruct m.
    + rewrite estimatedNetRate_finite by done. cbn [value].
      by intros [= <-].
Qed.

Lemma detectGambits_scores_in_range snapshots now libs defs war :
  Forall (fun lc => ~ (maxHealth (planet lc) == 0)%Q) libs ->
  Forall (fun g => exists z, (0 <= z <= 100)%Z
                             /\ successPct g = Fin (inject_Z z))
         (detectGambits snapshots now libs defs war).
Proof.
  intros Hlibs. unfold detectGambits. cbv zeta. rewrite sort_perm.
  apply Forall_forall.
  intros g (i & lc & -> & Hlc)%elem_of_lookup_imap_1.
  apply analyse_score_range.
  rewrite Forall_forall in Hlibs. eauto using list_elem_of_lookup_2.
Qed.

End Scores.

(** ** The order of the returned list *)

Section SortOrder.
Context {A : Type} (comparefn : A -> A -> num).
Context (P : A -> Prop) (R : A -> A -> Prop).
Hypothesis keep :
  forall x y, P x -> P y -> (comparefn x y > Fin 0)%js = false -> R x y.
Hypothesis swap :
  forall x y, P x -> P y -> (comparefn x y > Fin 0)%js = true -> R y x.
Hypothesis trans :
  forall x y z, P x -> P y -> P z -> R x y -> R y z -> R x z.

Lemma insert_sorted (x : A) (l : list A) :
  P x -> Forall P l -> StronglySorted R l ->
  StronglySorted R (JsArray.insert comparefn x l).
Proof.
  intros Px. induction l as [|y l IH]; intros HP Hsorted;
    cbn [JsArray.insert].
  { repeat constructor. }
  apply Forall_cons in HP as [Py HP].
  apply StronglySorted_inv in Hsorted as [Hsorted Hy].
  destruct (JsNum.gtb (comparefn x y) (Fin 0)) eqn:Hcmp.
  - constructor; [by apply IH|].
    rewrite insert_perm. constructor; [by apply swap | done].
  - constructor; [by constructor|].
    constructor; [by apply keep|].
    rewrite Forall_forall in HP, Hy. apply Forall_forall. intros z Hz.
    apply (trans x y z); auto.
Qed.

Lemma sort_sorted (l : list A) :
  Forall P l -> StronglySorted R (JsArray.sort comparefn l).
Proof.
  induction l as [|x l IH]; intros HP; simpl; [constructor|].
  apply Forall_cons in HP as [Px HP].
  apply insert_sorted; [done | by rewrite sort_perm | by apply IH].
Qed.

End SortOrder.

Section Ranking.
Import JsNum JsNumFacts.

Lemma gambitOrder_cases (a b : Gambit) :
  gambitOrder a b
  = match hasDefense a, hasDefense b with
    | true, false => Fin (0 + - 1)
    | false, true => Fin (1 + - 0)
    | _, _ => (successPct b - successPct a)%js
    end.
Proof.
  unfold gambitOrder, hasDefense.
  by destruct (0 <? length (connectedDefenses a))%nat,
              (0 <? length (connectedDefenses b))%nat.
Qed.

(** Gambits with a connected defense come first, whatever the scores. *)
Lemma detectGambits_grouped snapshots now libs defs war :
  StronglySorted grouped (detectGambits snapshots now libs defs war).
Proof.
  unfold detectGambits. cbv zeta.
  apply (sort_sorted gambitOrder (fun _ => True) grouped).
  - intros a b _ _. rewrite gambitOrder_cases. unfold grouped.
    by destruct (hasDefense a), (hasDefense b).
  - intros a b _ _. rewrite gambitOrder_cases. unfold grouped.
    by destruct (hasDefense a), (hasDefense b).
  - unfold grouped. auto.
  - by apply Forall_true.
Qed.

(** When every score is a finite number the list is ranked: defended
    gambits first, and within each group by non-increasing score. *)
Lemma sort_ranked (gambits : list Gambit) :
  Forall (fun g => isFinite (successPct g) = true) gambits ->
  StronglySorted ranked (JsArray.sort gambitOrder gambits).
Proof.
  apply (sort_sorted gambitOrder
           (fun g => isFinite (successPct g) = true) ranked).
  - intros a b Ha Hb. rewrite gambitOrder_cases. unfold ranked, grouped.
    destruct (hasDefense a), (hasDefense b),
      (successPct a) as [| | |sa], (successPct b) as [| | |sb];
      try done; unfold gtb; cbn [sub add neg ltb leb];
      intros Hcmp; (split; [done|]); intros _; q_props; lra.
  - intros a b Ha Hb. rewrite gambitOrder_cases. unfold ranked, grouped.
    destruct (hasDefense a), (hasDefense b),
      (successPct a) as [| | |sa], (successPct b) as [| | |sb];
      try done; unfold gtb; cbn [sub add neg ltb leb];
      intros Hcmp; (split; [done|]); intros _; q_props; lra.
  - intros a b c Ha Hb Hc. unfold ranked, grouped.
    destruct (hasDefense a), (hasDefense b), (hasDefense c),
      (successPct a) as [| | |sa], (successPct b) as [| | |sb],
      (successPct c) as [| | |sc]; try done; cbn [leb];
      intros [? Hab] [? Hbc]; (split; [auto|]); intros _;
      try (specialize (Hab eq_refl)); try (specialize (Hbc eq_refl));
      try (by exfalso; auto); q_props; lra.
Qed.

Lemma detectGambits_ranked snapshots now libs defs war :
  Forall (fun lc => ~ (maxHealth (planet lc) == 0)%Q) libs ->
  StronglySorted ranked (detectGambits snapshots now libs defs war).
Proof.
  intros Hlibs. apply sort_ranked.
  apply (detectGambits_scores_in_range snapshots now libs defs war) in Hlibs.
  unfold detectGambits in Hlibs. cbv zeta in Hlibs.
  rewrite sort_perm in Hlibs.
  eapply Forall_impl; [exact Hlibs|]. by intros g (z & _ & ->).
Qed.

(** The failing input of C3: three liberation campaigns without any
    connected defense, the second on a planet whose record carries
    [maxHealth = 0] and [regenPerSecond = 0].  Its score is [NaN], the
    comparator answers [NaN] whenever it meets that gambit, and the list
    comes back with the score 10 ranked before the score 96. *)
Lemma detectGambits_misranks :
  (fun g => (index (planet (libCampaign g)), connectedDefenses g,
             successPct g))
    <$> detectGambits [] 0
          [campaign_of slow_planet; campaign_of hollow_planet;
           campaign_of fast_planet] [] None
  = [(3%Z, [], Fin 10); (2%Z, [], NaN); (4%Z, [], Fin 96)].
Proof. reflexivity. Qed.

End Ranking.

(** * Further properties of the code *)

(** ** Arrays: sets and sorting by a key *)

Section ArrayFacts.
Import JsNum JsNumFacts.

Lemma new_Set_acc `{EqDecision A} (l acc : list A) :
  let s := foldl (fun acc x => if decide (x ∈ acc) then acc else acc ++ [x])
                 acc l in
  (forall x, x ∈ s <-> x ∈ acc \/ x ∈ l) /\ (NoDup acc -> NoDup s).
Proof.
  revert acc. induction l as [|y l IH]; intros acc; simpl.
  { split; [|done]. intros x. rewrite elem_of_nil. tauto. }
  destruct (IH (if decide (y ∈ acc) then acc else acc ++ [y])) as [Hin Hnd].
  split.
  - intros x. rewrite Hin, elem_of_cons. case_decide as Hy.
    + split; [tauto|]. intros [?|[->|?]]; auto.
    + rewrite elem_of_app, list_elem_of_singleton. tauto.
  - intros Hacc. apply Hnd. case_decide as Hy; [done|].
    apply NoDup_app. split; [done|]. split; [|apply NoDup_singleton].
    intros x Hx ->%list_elem_of_singleton. done.
Qed.

(** [new Set(l)] has the elements of [l], each once. *)
Lemma elem_of_new_Set `{EqDecision A} (l : list A) (x : A) :
  x ∈ JsArray.new_Set l <-> x ∈ l.
Proof.
  destruct (new_Set_acc l []) as [Hin _]. unfold JsArray.new_Set.
  rewrite Hin, elem_of_nil. tauto.
Qed.

Lemma NoDup_new_Set `{EqDecision A} (l : list A) : NoDup (JsArray.new_Set l).
Proof.
  destruct (new_Set_acc l []) as [_ Hnd]. apply Hnd, NoDup_nil_2.
Qed.


(** Sorting with [key(a) - key(b)] puts the keys in ascending order, the
    infinite ones last. *)
Lemma sort_ascending {A} (key : A -> num) (l : list A) :
  Forall (fun a => orderable (key a)) l ->
  StronglySorted (fun a b => (key a <= key b)%js = true)
    (JsArray.sort (fun a b => (key a - key b)%js) l).
Proof.
  apply (sort_sorted _ (fun a => orderable (key a))).
  - intros a b [Ha | Ha] [Hb | Hb]; destruct (key a), (key b); try done;
      unfold gtb; cbn [sub add neg ltb leb]; intros; q_props; lra.
  - intros a b [Ha | Ha] [Hb | Hb]; destruct (key a), (key b); try done;
      unfold gtb; cbn [sub add neg ltb leb]; intros; q_props; lra.
  - intros a b c [Ha | Ha] [Hb | Hb] [Hc | Hc];
      destruct (key a), (key b), (key c); try done;
      cbn [leb]; intros; q_props; lra.
Qed.

(** Sorting with [key(b) - key(a)] on finite keys puts them in descending
    order. *)
Lemma sort_descending {A} (key : A -> num) (l : list A) :
  Forall (fun a => isFinite (key a) = true) l ->
  StronglySorted (fun a b => (key b <= key a)%js = true)
    (JsArray.sort (fun a b => (key b - key a)%js) l).
Proof.
  apply (sort_sorted _ (fun a => isFinite (key a) = true)).
  - intros a b Ha Hb; destruct (key a), (key b); try done;
      unfold gtb; cbn [sub add neg ltb leb]; intros; q_props; lra.
  - intros a b Ha Hb; destruct (key a), (key b); try done;
      unfold gtb; cbn [sub add neg ltb leb]; intros; q_props; lra.
  - intros a b c Ha Hb Hc; destruct (key a), (key b), (key c); try done;
      cbn [leb]; intros; q_props; lra.
Qed.

End ArrayFacts.

(** ** Strategic scout: the shape of the results *)

Section ScoutResults.
Import JsNum JsNumFacts.

(** What a result of [detectScoutTargets] is made of. *)
Lemma scout_result_inv defs libs allPlanets r :
  r ∈ detectScoutTargets defs libs allPlanets ->
  exists idxs,
    defenseCampaign r ∈ defs
    /\ NoDup idxs
    /\ (forall idx,
           idx ∈ idxs <->
           idx ∈ default [] (waypoints (planet (defenseCampaign r)))
           \/ exists p, p ∈ allPlanets /\ index p = idx
                        /\ index (planet (defenseCampaign r))
                           ∈ default [] (waypoints p))
    /\ targets r
       = JsArray.sort targetOrder
           (omap (scoutCandidate (activeIndices defs libs)
                    (planetTable allPlanets)) idxs)
    /\ targets r <> [].
Proof.
  unfold detectScoutTargets. cbv zeta.
  rewrite elem_of_sort, list_elem_of_omap. intros (dc & Hdc & Hr).
  destruct (0 <? length _)%nat eqn:Hlen in Hr; [|done].
  injection Hr as <-. cbn [defenseCampaign targets].
  eexists. split; [done|]. split; [apply NoDup_new_Set|].
  split; [|split; [reflexivity|]].
  - intros idx. rewrite elem_of_new_Set, elem_of_app.
    apply or_iff_compat_l.
    change (map index ?l) with (index <$> l).
    rewrite list_elem_of_fmap. setoid_rewrite list_elem_of_filter.
    unfold JsArray.includes. setoid_rewrite bool_decide_eq_true.
    split; intros (p & ? & ?); exists p; intuition.
  - apply Nat.ltb_lt in Hlen. intros Hnil. rewrite Hnil in Hlen.
    simpl in Hlen. lia.
Qed.

Lemma scoutCandidate_index active table idx t :
  (forall i p, table !! i = Some p -> index p = i) ->
  scoutCandidate active table idx = Some t -> index (target_planet t) = idx.
Proof.
  intros Htable (_ & Hlookup & _)%scoutCandidate_Some. eauto.
Qed.

Lemma planetTable_index allPlanets i p :
  planetTable allPlanets !! i = Some p -> index p = i.
Proof.
  apply planetByIndex_index. intros ??. by rewrite lookup_empty.
Qed.


(** X2: every target is one supply-line hop from the defended planet: its
    index is among the defended planet's waypoints, or a planet of that
    index lists the defended planet among its own. *)
Theorem scout_targets_adjacent defs libs allPlanets r t :
  r ∈ detectScoutTargets defs libs allPlanets ->
  t ∈ targets r ->
  index (target_planet t)
    ∈ default [] (waypoints (planet (defenseCampaign r)))
  \/ exists p, p ∈ allPlanets
               /\ index p = index (target_planet t)
               /\ index (planet (defenseCampaign r))
                  ∈ default [] (waypoints p).
Proof.
  intros Hr Ht.
  destruct (scout_result_inv _ _ _ _ Hr) as (idxs & _ & _ & Hidxs & Htargets & _).
  rewrite Htargets, elem_of_sort, list_elem_of_omap in Ht.
  destruct Ht as (idx & Hidx & Hcand).
  rewrite (scoutCandidate_index _ _ _ _ (planetTable_index allPlanets) Hcand).
  by apply Hidxs.
Qed.

Lemma scoutCandidate_decay active table idx t :
  scoutCandidate active table idx = Some t ->
  (decayPctHr t = None /\ (maxHealth (target_planet t) == 0)%Q)
  \/ (exists q, decayPctHr t = Some (Fin q)
                /\ ~ (maxHealth (target_planet t) == 0)%Q
                /\ (q == regenPerSecond (target_planet t) * 3600
                         / maxHealth (target_planet t) * 100)%Q).
Proof.
  unfold scoutCandidate. case_decide; [done|].
  destruct (table !! idx) as [planet|]; [|done]. cbv zeta.
  destruct (orb _ _); [done|]. intros [= <-]. cbn [decayPctHr target_planet].
  cbn [truthy]. destruct (Qeq_bool (maxHealth planet) 0) eqn:Hmax; cbn [negb].
  - left. split; [done|]. by apply Qeq_bool_iff.
  - right. cbn [mul div]. eexists. split; [reflexivity|].
    split; [by apply Qeq_bool_false | reflexivity].
Qed.

(** X3: the targets of a result are in ascending order of decay rate, the
    planets without one (those with [maxHealth = 0]) last; a decay rate
    that is present is the finite number
    [regenPerSecond * 3600 / maxHealth * 100]. *)
Theorem scout_targets_sorted defs libs allPlanets r :
  r ∈ detectScoutTargets defs libs allPlanets ->
  StronglySorted (fun a b => (decayKey a <= decayKey b)%js = true)
    (targets r)
  /\ Forall (fun t =>
               match decayPctHr t with
               | None => (maxHealth (target_planet t) == 0)%Q
               | Some d =>
                   exists q, d = Fin q
                     /\ (q == regenPerSecond (target_planet t) * 3600
                              / maxHealth (target_planet t) * 100)%Q
               end) (targets r).
Proof.
  intros Hr.
  destruct (scout_result_inv _ _ _ _ Hr) as (idxs & _ & _ & _ & -> & _).
  assert (Hshape : Forall (fun t =>
              match decayPctHr t with
              | None => (maxHealth (target_planet t) == 0)%Q
              | Some d =>
                  exists q, d = Fin q
                    /\ (q == regenPerSecond (target_planet t) * 3600
                             / maxHealth (target_planet t) * 100)%Q
              end)
            (omap (scoutCandidate (activeIndices defs libs)
                     (planetTable allPlanets)) idxs)).
  { apply Forall_forall. intros t (idx & _ & Ht)%list_elem_of_omap.
    destruct (scoutCandidate_decay _ _ _ _ Ht) as [[-> ?] | (q & -> & _ & ?)];
      eauto. }
  split; [|by rewrite sort_perm].
  apply (sort_ascending decayKey).
  eapply Forall_impl; [exact Hshape|]. intros t. unfold decayKey.
  destruct (decayPctHr t) as [d|]; simpl; [|by right].
  intros (q & -> & _). by left.
Qed.

Lemma expiryOf_orderable (c : Campaign) : orderable (expiryOf c).
Proof.
  unfold expiryOf. destruct (event (planet c) ≫= endTime); [by left | by right].
Qed.

(** X4: the results are in ascending order of defense expiry, the defenses
    without an expiry time last. *)
Theorem scout_results_by_urgency defs libs allPlanets :
  StronglySorted
    (fun a b => (expiryOf (defenseCampaign a)
                 <= expiryOf (defenseCampaign b))%js = true)
    (detectScoutTargets defs libs allPlanets).
Proof.
  unfold detectScoutTargets. cbv zeta.
  apply (sort_ascending (fun r => expiryOf (defenseCampaign r))).
  apply Forall_forall. intros r _. apply expiryOf_orderable.
Qed.

Lemma planetTable_lookup allPlanets p :
  NoDup (index <$> allPlanets) -> p ∈ allPlanets ->
  planetTable allPlanets !! index p = Some p.
Proof.
  unfold planetTable.
  induction allPlanets as [|q allPlanets IH] using rev_ind; [by intros _ ?%elem_of_nil|].
  rewrite fmap_app, foldl_app. simpl.
  intros [Hnd [Hq _]]%NoDup_app [Hp | ->%list_elem_of_singleton]%elem_of_app.
  - rewrite lookup_insert_ne; [by apply IH|].
    intros Heq. apply (Hq (index p)).
    + by apply list_elem_of_fmap_2.
    + rewrite <- Heq. apply list_elem_of_singleton. done.
  - apply lookup_insert_eq.
Qed.

Lemma toLowerCase_truthy (s : string) :
  s <> ""%string -> JsStr.truthy (JsStr.toLowerCase s) = true.
Proof. by destruct s. Qed.

(** X5: when the planet indices of [allPlanets] are unique, every planet
    that shares a supply line with a defended planet, is under no active
    campaign and has a recorded owner other than the friendly faction
    appears as a target of that defense campaign. *)
Theorem scout_targets_complete defs libs allPlanets dc p owner :
  NoDup (index <$> allPlanets) ->
  dc ∈ defs ->
  p ∈ allPlanets ->
  index p ∈ default [] (waypoints (planet dc))
  \/ index (planet dc) ∈ default [] (waypoints p) ->
  (forall c, c ∈ libs ++ defs -> index (planet c) <> index p) ->
  currentOwner p = Some owner ->
  owner <> ""%string ->
  JsStr.includes "human" (JsStr.toLowerCase owner) = false ->
  exists r t,
    r ∈ detectScoutTargets defs libs allPlanets
    /\ defenseCampaign r = dc
    /\ t ∈ targets r
    /\ target_planet t = p.
Proof.
  intros Hnd Hdc Hp Hlink Hfree Howner Hne Hhuman.
  set (decay := if JsNum.truthy (Fin (maxHealth p))
                then Some ((Fin (regenPerSecond p) * Fin 3600
                            / Fin (maxHealth p)) * Fin 100)%js
                else None).
  set (t := {| target_planet := p; decayPctHr := decay |}).
  assert (Hcand : scoutCandidate (activeIndices defs libs)
                    (planetTable allPlanets) (index p) = Some t).
  { unfold scoutCandidate. rewrite decide_False.
    - rewrite (planetTable_lookup _ _ Hnd Hp). cbv zeta. rewrite Howner.
      cbn [from_option id]. by rewrite (toLowerCase_truthy _ Hne), Hhuman.
    - unfold activeIndices. rewrite elem_of_list_to_set.
      change (index p ∈ ((fun c => index (planet c)) <$> libs)
                        ++ ((fun c => index (planet c)) <$> defs) -> False).
      rewrite <- fmap_app.
      intros (c & Heq & Hc)%list_elem_of_fmap. by apply (Hfree c). }
  unfold detectScoutTargets. cbv zeta.
  set (idxs := JsArray.new_Set
                 (default [] (waypoints (planet dc))
                  ++ map index
                       (filter (fun p =>
                                  JsArray.includes (default [] (waypoints p))
                                    (index (planet dc)) = true)
                               allPlanets))).
  assert (Hidx : index p ∈ idxs).
  { apply elem_of_new_Set, elem_of_app. destruct Hlink as [?|Hlink]; [by left|].
    right. change (index p ∈ index <$> filter (fun p => JsArray.includes
             (default [] (waypoints p)) (index (planet dc)) = true) allPlanets).
    apply list_elem_of_fmap_2, list_elem_of_filter. split; [|done].
    by apply bool_decide_eq_true. }
  set (ts := JsArray.sort targetOrder
               (omap (scoutCandidate (activeIndices defs libs)
                        (planetTable allPlanets)) idxs)).
  assert (Ht : t ∈ ts).
  { apply elem_of_sort, list_elem_of_omap. eauto. }
  exists {| defenseCampaign := dc; targets := ts |}, t.
  split; [|done].
  apply elem_of_sort, list_elem_of_omap. exists dc. split; [done|].
  change (omap _ (JsArray.new_Set _)) with
    (omap (scoutCandidate (activeIndices defs libs) (planetTable allPlanets))
       idxs).
  fold ts. destruct ts; [by apply elem_of_nil in Ht | done].
Qed.

Lemma scout_targets_complete_witness :
  let defense := campaign_of (defended_planet 20 [21%Z] 86400000) in
  exists r t,
    r ∈ detectScoutTargets [defense] [campaign_of untouched_planet]
          [defended_planet 20 [21%Z] 86400000; enemy_planet 21 []]
    /\ defenseCampaign r = defense
    /\ t ∈ targets r
    /\ target_planet t = enemy_planet 21 [].
Proof.
  intros defense.
  apply (scout_targets_complete [defense] [campaign_of untouched_planet]
           [defended_planet 20 [21%Z] 86400000; enemy_planet 21 []]
           defense (enemy_planet 21 []) "Automaton").
  - simpl. apply NoDup_cons. split; [|apply NoDup_singleton].
    by intros [=]%list_elem_of_singleton.
  - left.
  - right. left.
  - left. left.
  - intros c Hc. apply elem_of_app in Hc as [Hc | Hc];
      apply list_elem_of_singleton in Hc; by subst.
  - reflexivity.
  - done.
  - reflexivity.
Defined.

Lemma scout_targets_adjacent_witness :
  let defense := campaign_of (defended_planet 20 [21%Z] 86400000) in
  21%Z ∈ [21%Z]
  \/ exists p, p ∈ [defended_planet 20 [21%Z] 86400000; enemy_planet 21 []]
               /\ index p = 21%Z /\ 20%Z ∈ default [] (waypoints p).
Proof.
  intros defense.
  set (t := {| target_planet := enemy_planet 21 [];
               decayPctHr := Some (Fin 0.000360000) |}).
  apply (scout_targets_adjacent [defense] [campaign_of untouched_planet]
           [defended_planet 20 [21%Z] 86400000; enemy_planet 21 []]
           {| defenseCampaign := defense; targets := [t] |} t).
  - vm_compute. left.
  - left.
Defined.

Lemma scout_targets_sorted_witness :
  let defense := campaign_of (defended_planet 20 [21%Z] 86400000) in
  let t := {| target_planet := enemy_planet 21 [];
              decayPctHr := Some (Fin 0.000360000) |} in
  StronglySorted (fun a b => (decayKey a <= decayKey b)%js = true) [t].
Proof.
  intros defense t.
  apply (scout_targets_sorted [defense] [campaign_of untouched_planet]
           [defended_planet 20 [21%Z] 86400000; enemy_planet 21 []]
           {| defenseCampaign := defense; targets := [t] |}).
  vm_compute. left.
Defined.

End ScoutResults.

(** ** Snapshot store and rate estimator together *)

Section RecordAndMeasure.
Import JsNum JsNumFacts.

Lemma snapshotEntry_snoc now planets q :
  snapshotEntry now (Some (planets ++ [q]))
  = let entry := snapshotEntry now (Some planets) in
    {| ts := ts entry;
       snap_health := <[index q := health q]> (snap_health entry);
       snap_players := <[index q := default 0%Q (playerCount q)]>
                         (snap_players entry) |}.
Proof. unfold snapshotEntry. simpl. by rewrite foldl_app. Qed.

Lemma snapshotEntry_ts now planets : ts (snapshotEntry now planets) = now.
Proof.
  destruct planets as [planets|]; [|done].
  induction planets as [|q planets IH] using rev_ind; [done|].
  by rewrite snapshotEntry_snoc.
Qed.

(** What a refresh stores, read back: the health and player count of each
    planet of the array under its index, nothing under other indices. *)
Lemma snapshotEntry_lookup now planets :
  (forall i, i ∉ index <$> planets ->
             snap_health (snapshotEntry now (Some planets)) !! i = None
             /\ snap_players (snapshotEntry now (Some planets)) !! i = None)
  /\ (NoDup (index <$> planets) ->
      forall p, p ∈ planets ->
        snap_health (snapshotEntry now (Some planets)) !! index p
        = Some (health p)
        /\ snap_players (snapshotEntry now (Some planets)) !! index p
           = Some (default 0%Q (playerCount p))).
Proof.
  induction planets as [|q planets [IHnone IHsome]] using rev_ind.
  { split; [done|]. by intros _ p ?%elem_of_nil. }
  rewrite snapshotEntry_snoc, fmap_app. cbv zeta. simpl. split.
  - intros i Hi. rewrite elem_of_app, list_elem_of_singleton in Hi.
    rewrite !lookup_insert_ne by (intros Heq; apply Hi; auto).
    apply IHnone. tauto.
  - intros [Hnd [Hq _]]%NoDup_app p [Hp | ->%list_elem_of_singleton]%elem_of_app.
    + rewrite !lookup_insert_ne; [by apply IHsome|..];
        intros Heq; apply (Hq (index p));
        try (by apply list_elem_of_fmap_2);
        rewrite <- Heq; by apply list_elem_of_singleton.
    + by rewrite !lookup_insert_eq.
Qed.

(** The two most recent entries after two refreshes, whatever was stored
    before. *)
Lemma recordSnapshot_twice now1 planets1 now2 planets2 snapshots :
  exists older,
    recordSnapshot now2 planets2 (recordSnapshot now1 planets1 snapshots)
    = older ++ [snapshotEntry now1 planets1; snapshotEntry now2 planets2].
Proof.
  assert (Hone : exists older,
             recordSnapshot now1 planets1 snapshots
             = older ++ [snapshotEntry now1 planets1]).
  { unfold recordSnapshot. cbv zeta. case_decide as Hfull; [|by eexists].
    destruct snapshots as [|s snapshots]; [simpl in Hfull; lia|].
    by exists snapshots. }
  destruct Hone as (older & ->).
  unfold recordSnapshot at 1. cbv zeta. rewrite <- app_assoc. simpl.
  case_decide as Hfull; [|by eexists].
  destruct older as [|s older]; [simpl in Hfull; lia|]. by exists older.
Qed.

(** X6: [recordSnapshot] puts at the end of the store an entry stamped
    with the clock reading; it holds nothing for an index that is not in
    the planet array (nothing at all when the array is absent) and, when
    the indices of the array are unique, the health and the player count
    (0 when the planet has none) of each of its planets. *)
Theorem recordSnapshot_latest now planets snapshots :
  exists older entry,
    recordSnapshot now planets snapshots = older ++ [entry]
    /\ ts entry = now
    /\ (forall i, i ∉ index <$> default [] planets ->
                  snap_health entry !! i = None
                  /\ snap_players entry !! i = None)
    /\ (NoDup (index <$> default [] planets) ->
        forall p, p ∈ default [] planets ->
          snap_health entry !! index p = Some (health p)
          /\ snap_players entry !! index p
             = Some (default 0%Q (playerCount p))).
Proof.
  assert (Hone : exists older,
             recordSnapshot now planets snapshots
             = older ++ [snapshotEntry now planets]).
  { unfold recordSnapshot. cbv zeta. case_decide as Hfull; [|by eexists].
    destruct snapshots as [|s snapshots]; [simpl in Hfull; lia|].
    by exists snapshots. }
  destruct Hone as (older & ->). exists older, (snapshotEntry now planets).
  split; [done|]. split; [apply snapshotEntry_ts|].
  destruct planets as [planets|]; [apply snapshotEntry_lookup|].
  split; [done|]. by intros _ p ?%elem_of_nil.
Qed.

Lemma recordSnapshot_latest_witness :
  exists older entry,
    recordSnapshot 5 (Some [example_planet]) [] = older ++ [entry]
    /\ snap_health entry !! 1%Z = Some 500000%Q
    /\ snap_players entry !! 1%Z = Some 20000%Q.
Proof.
  destruct (recordSnapshot_latest 5 (Some [example_planet]) [])
    as (older & entry & Heq & _ & _ & Hsome).
  exists older, entry. split; [done|].
  apply (Hsome (NoDup_singleton _) example_planet). left.
Defined.

(** X7: after two refreshes at least 7.2 seconds apart, whatever the store
    held before, [measuredNetRate] answers for a planet present in both
    arrays (indices unique in each) with the rate computed from the two
    recorded healths; for an index missing from either array it answers
    null. *)
Theorem measuredNetRate_after_two_refreshes now1 planets1 now2 planets2
    snapshots maxHealth :
  let store :=
    recordSnapshot now2 (Some planets2)
      (recordSnapshot now1 (Some planets1) snapshots) in
  (forall i, i ∉ index <$> planets1 \/ i ∉ index <$> planets2 ->
             measuredNetRate store i maxHealth = None)
  /\ (forall p1 p2,
         NoDup (index <$> planets1) -> NoDup (index <$> planets2) ->
         p1 ∈ planets1 -> p2 ∈ planets2 -> index p1 = index p2 ->
         (7200 <= now2 - now1)%Z ->
         measuredNetRate store (index p2) maxHealth
         = Some ((Fin (health p1) - Fin (health p2)) / maxHealth * Fin 100
                 / ((of_Z now2 - of_Z now1) / Fin 3600000))%js).
Proof.
  intros store. subst store.
  destruct (recordSnapshot_twice now1 (Some planets1) now2 (Some planets2)
              snapshots) as (older & ->).
  split.
  - intros i Hi. rewrite measuredNetRate_two.
    destruct (snapshotEntry_lookup now1 planets1) as [Hnone1 _].
    destruct (snapshotEntry_lookup now2 planets2) as [Hnone2 _].
    destruct Hi as [Hi | Hi].
    + destruct (Hnone1 i Hi) as [-> _]. by destruct (_ !! i).
    + by destruct (Hnone2 i Hi) as [-> _].
  - intros p1 p2 Hnd1 Hnd2 Hp1 Hp2 Heq Hapart. rewrite measuredNetRate_two.
    destruct (snapshotEntry_lookup now1 planets1) as [_ Hsome1].
    destruct (snapshotEntry_lookup now2 planets2) as [_ Hsome2].
    destruct (Hsome2 Hnd2 p2 Hp2) as [-> _]. rewrite <- Heq.
    destruct (Hsome1 Hnd1 p1 Hp1) as [-> _].
    rewrite !snapshotEntry_ts. by rewrite bool_decide_eq_false_2 by lia.
Qed.

Lemma measuredNetRate_after_two_refreshes_witness :
  measuredNetRate
    (recordSnapshot 3600000 (Some [fast_planet])
       (recordSnapshot 0 (Some [slow_planet; fast_planet]) []))
    4 (Fin 1000000)
  = Some ((Fin 100000 - Fin 100000) / Fin 1000000 * Fin 100
          / ((of_Z 3600000 - of_Z 0) / Fin 3600000))%js.
Proof.
  destruct (measuredNetRate_after_two_refreshes 0 [slow_planet; fast_planet]
              3600000 [fast_planet] [] (Fin 1000000)) as [_ Hrate].
  apply (Hrate fast_planet fast_planet).
  - simpl. apply NoDup_cons. split; [|apply NoDup_singleton].
    by intros [=]%list_elem_of_singleton.
  - apply NoDup_singleton.
  - right. left.
  - left.
  - reflexivity.
  - lia.
Defined.

Lemma Qdiv_pos_lt (x c : Q) : (0 < c)%Q -> (0 < x / c)%Q <-> (0 < x)%Q.
Proof.
  intros Hc. unfold Qdiv.
  assert (Hinv : (0 < / c)%Q) by by apply Qinv_lt_0_compat.
  rewrite <- (Qmult_lt_r 0 x (/ c) Hinv). by rewrite Qmult_0_l.
Qed.

Lemma Qdiv_neg_lt (x c : Q) : (0 < c)%Q -> (x / c < 0)%Q <-> (x < 0)%Q.
Proof.
  intros Hc. unfold Qdiv.
  assert (Hinv : (0 < / c)%Q) by by apply Qinv_lt_0_compat.
  rewrite <- (Qmult_lt_r x 0 (/ c) Hinv). by rewrite Qmult_0_l.
Qed.

(** X8: for a planet with positive [maxHealth], a measured rate is a
    finite number that is positive exactly when the health fell between
    the two most recent snapshots and negative exactly when it rose. *)
Theorem measuredNetRate_sign older prev latest planetIndex (maxHealth : Q)
    prevHealth latestHealth :
  (0 < maxHealth)%Q ->
  snap_health prev !! planetIndex = Some prevHealth ->
  snap_health latest !! planetIndex = Some latestHealth ->
  (7200 <= ts latest - ts prev)%Z ->
  exists rate,
    measuredNetRate (older ++ [prev; latest]) planetIndex (Fin maxHealth)
    = Some (Fin rate)
    /\ ((0 < rate)%Q <-> (latestHealth < prevHealth)%Q)
    /\ ((rate < 0)%Q <-> (prevHealth < latestHealth)%Q).
Proof.
  intros Hmax Hprev Hlatest Hapart.
  rewrite measuredNetRate_two, Hprev, Hlatest.
  rewrite bool_decide_eq_false_2 by lia.
  assert (Hdt : (0 < (inject_Z (ts latest) + - inject_Z (ts prev))
                     / 3600000)%Q).
  { apply Qdiv_pos_lt; [done|].
    assert (inject_Z (ts prev) < inject_Z (ts latest))%Q
      by (rewrite <- Zlt_Qlt; lia).
    lra. }
  unfold of_Z. cbn [sub add neg div mul].
  change (Qeq_bool 3600000 0) with false. cbv iota.
  destruct (positive_consts _ Hmax) as (_ & _ & ->). cbn [mul div].
  destruct (positive_consts _ Hdt) as (_ & _ & ->).
  eexists. split; [reflexivity|].
  rewrite (Qdiv_pos_lt _ _ Hdt), (Qdiv_neg_lt _ _ Hdt).
  assert (H100 : forall x, (x * 100 == x / (1 # 100))%Q)
    by (intros x; unfold Qdiv; by change (/ (1 # 100))%Q with 100%Q).
  rewrite !H100, (Qdiv_pos_lt _ (1 # 100)), (Qdiv_neg_lt _ (1 # 100)) by done.
  rewrite (Qdiv_pos_lt _ _ Hmax), (Qdiv_neg_lt _ _ Hmax).
  split; split; lra.
Qed.

Lemma measuredNetRate_sign_witness :
  let after :=
    {| index := 1; health := 400000; maxHealth := 1000000;
       regenPerSecond := 0.001; playerCount := Some 20000%Q;
       currentOwner := None; waypoints := None; event := None |} in
  let prev := snapshotEntry 0 (Some [example_planet]) in
  let latest := snapshotEntry 3600000 (Some [after]) in
  exists rate,
    measuredNetRate ([] ++ [prev; latest]) 1 (Fin 1000000) = Some (Fin rate)
    /\ ((0 < rate)%Q <-> (400000 < 500000)%Q)
    /\ ((rate < 0)%Q <-> (500000 < 400000)%Q).
Proof.
  intros after prev latest.
  apply (measuredNetRate_sign [] prev latest 1 1000000 500000 400000).
  - reflexivity.
  - reflexivity.
  - reflexivity.
  - vm_compute. discriminate.
Defined.

End RecordAndMeasure.

(** ** Gambit detection: rates, estimates and time to completion *)

Section DetectionDetails.
Import JsNum JsNumFacts.

Lemma elem_of_detectGambits snapshots now libs defs war g :
  g ∈ detectGambits snapshots now libs defs war ->
  exists i lc, libs !! i = Some lc
               /\ g = analyse snapshots now libs defs (impactOf war) i lc.
Proof.
  unfold detectGambits. cbv zeta. rewrite elem_of_sort.
  intros (i & lc & -> & Hlc)%elem_of_lookup_imap_1. eauto.
Qed.

Lemma measuredNetRate_few snapshots planetIndex maxHealth :
  (length snapshots < 2)%nat ->
  measuredNetRate snapshots planetIndex maxHealth = None.
Proof. intros Hfew. unfold measuredNetRate. by rewrite decide_True. Qed.

Lemma calcPlayerRequirements_few snapshots planet netRateObj imp :
  (length snapshots < 2)%nat ->
  calcPlayerRequirements snapshots planet netRateObj imp
  = calcPlayerRequirements [] planet netRateObj imp.
Proof.
  intros Hfew. unfold calcPlayerRequirements.
  by rewrite bool_decide_eq_false_2 by lia.
Qed.

(** X9: until two snapshots are stored the pass does not look at the
    store: the result is the one for the empty store, every net rate is
    the estimate of [estimatedNetRate] and every player requirement that
    is present is flagged as estimated. *)
Theorem detectGambits_before_two_snapshots snapshots now libs defs war :
  (length snapshots < 2)%nat ->
  detectGambits snapshots now libs defs war
  = detectGambits [] now libs defs war
  /\ Forall (fun g =>
               netRateObj g = estimatedNetRate (planet (libCampaign g))
               /\ forall reqs, playerReqs g = Some reqs ->
                               pr_estimated reqs = true)
            (detectGambits snapshots now libs defs war).
Proof.
  intros Hfew. split.
  - unfold detectGambits. cbv zeta. f_equal. apply imap_ext.
    intros i lc _. unfold analyse. cbv zeta.
    rewrite (measuredNetRate_few snapshots) by done.
    by rewrite (calcPlayerRequirements_few snapshots) by done.
  - apply Forall_forall. intros g (i & lc & _ & ->)%elem_of_detectGambits.
    unfold analyse. cbv zeta.
    rewrite (measuredNetRate_few snapshots) by done.
    cbn [netRateObj libCampaign playerReqs]. split; [done|].
    intros reqs. unfold calcPlayerRequirements.
    rewrite bool_decide_eq_false_2 by lia. cbn [andb]. cbv zeta.
    case_match; [done|]. by intros [= <-].
Qed.

Lemma detectGambits_before_two_snapshots_witness :
  detectGambits [snapshotEntry 0 (Some [example_planet])] 5
    [campaign_of example_planet] [] None
  = detectGambits [] 5 [campaign_of example_planet] [] None.
Proof.
  apply (detectGambits_before_two_snapshots
           [snapshotEntry 0 (Some [example_planet])] 5
           [campaign_of example_planet] [] None).
  simpl. lia.
Defined.

(** X10: a gambit has a time to completion exactly when its net rate is
    above 0, and then it is [(100 - libPct) / netRate]; otherwise the
    third row of its checklist, "completable within 48h", fails with the
    status IMPOSSIBLE (rate at most 0) or UNKNOWN, never with a speed. *)
Theorem detectGambits_time_to_complete snapshots now libs defs war :
  Forall (fun g =>
            exists rate,
              netRate g = Some rate
              /\ if (rate > Fin 0)%js
                 then timeToComplete g
                      = Some ((Fin 100 - g_libPct g) / rate)%js
                 else timeToComplete g = None
                      /\ exists row,
                           conditions g !! 2%nat = Some row
                           /\ label row = CompletableWithin48h
                           /\ pass row = false
                           /\ status row
                              = if (rate <= Fin 0)%js
                                then "IMPOSSIBLE"%string
                                else "UNKNOWN"%string)
         (detectGambits snapshots now libs defs war).
Proof.
  apply Forall_forall. intros g (i & lc & _ & ->)%elem_of_detectGambits.
  unfold analyse. cbv zeta.
  set (nro := match measuredNetRate _ _ _ with
              | Some m => {| value := Some m; estimated := false |}
              | None => estimatedNetRate (planet lc)
              end).
  assert (Hvalue : exists rate, value nro = Some rate).
  { subst nro. destruct (measuredNetRate _ _ _); by eexists. }
  destruct Hvalue as (rate & Hrate). exists rate.
  cbn [netRate timeToComplete conditions g_libPct]. rewrite Hrate.
  split; [done|]. cbv beta iota.
  destruct (rate > Fin 0)%js eqn:Hpos; [done|]. split; [done|].
  unfold buildConditions. cbv zeta. rewrite Hrate.
  eexists. split.
  { destruct (0 <? length _)%nat, (calcPlayerRequirements _ _ _ _);
      reflexivity. }
  cbn [label pass status]. done.
Qed.

End DetectionDetails.

(** ** Bounds on the score *)

Section ScoreBounds.
Import JsNum JsNumFacts.

Lemma conditionComponent_flags conditions :
  conditionComponent conditions = passComponent (pass <$> conditions).
Proof.
  unfold conditionComponent, passComponent. rewrite length_fmap.
  replace (length (filter (fun b => b = true) (pass <$> conditions)))
    with (length (filter (fun c => pass c = true) conditions)); [done|].
  induction conditions as [|c conditions IH]; [done|].
  rewrite fmap_cons, !filter_cons. destruct (pass c); simpl; congruence.
Qed.

(** The pass flags of the checklist, row by row. *)
Lemma buildConditions_flags now libCampaign netRateObj timeToComplete
    connectedDefenses playerReqs :
  pass <$> buildConditions now libCampaign netRateObj timeToComplete
             connectedDefenses playerReqs
  = [ (libPct (planet libCampaign) >= Fin 25)%js;
      match value netRateObj with
      | Some rate => (rate > Fin 0)%js
      | None => false
      end;
      match timeToComplete with
      | Some t => isFinite t && (t <= Fin 48)%js
      | None => false
      end ]
    ++ (if (0 <? length connectedDefenses)%nat
        then [ match timeToComplete with
               | Some t =>
                   isFinite t
                   && (t < min_list (map (defenseHours now)
                                       connectedDefenses))%js
               | None => false
               end ]
        else [])
    ++ match playerReqs with
       | Some reqs =>
           [ (Fin (default 0%Q (playerCount (planet libCampaign)))
              >= pr_min reqs)%js ]
       | None => []
       end.
Proof.
  unfold buildConditions. cbv zeta.
  by destruct (0 <? length connectedDefenses)%nat, playerReqs.
Qed.

Lemma clamp_score_le (score : Q) (bound : Z) :
  (0 <= bound)%Z -> (score <= inject_Z bound)%Q ->
  (clamp_score (Fin score) > Fin (inject_Z bound))%js = false.
Proof.
  intros Hbound Hscore. unfold clamp_score. cbn [round].
  assert (Hz : (Qfloor (score + (1 # 2)) <= bound)%Z).
  { apply Z.lt_succ_r. rewrite Zlt_Qlt.
    eapply Qle_lt_trans; [apply Qfloor_le|].
    unfold Z.succ. rewrite inject_Z_plus. change (inject_Z 1) with 1%Q.
    lra. }
  revert Hz. generalize (Qfloor (score + (1 # 2))) as z. intros z Hz.
  assert (Hzq : (inject_Z z <= inject_Z bound)%Q) by by rewrite <- Zle_Qle.
  assert (Hbq : (inject_Z 0 <= inject_Z bound)%Q) by by rewrite <- Zle_Qle.
  change (inject_Z 0) with 0%Q in Hbq.
  unfold gtb. cbn [min max ltb]. q_split; cbn [ltb]; q_props; lra.
Qed.

Lemma add_component_le (score bound : Q) (component : option num) :
  component_le component bound ->
  exists score', add_component (Fin score) component = Fin score'
                 /\ (score' <= score + bound)%Q.
Proof.
  destruct component as [[| | |c]|]; try done; simpl; intros Hc;
    eexists; (split; [reflexivity|]); lra.
Qed.

Lemma progress_le (q : Q) :
  (0 <= q <= 100)%Q ->
  exists p, (Fin 0 + progressComponent (Fin q))%js = Fin p /\ (p <= 25)%Q.
Proof.
  intros Hq. unfold progressComponent. cbn [min ltb div mul add].
  change (Qeq_bool 100 0) with false. cbv iota.
  q_split; eexists; (split; [reflexivity|]); q_props; q_arith.
Qed.

Lemma rateComponent_le (rate : num) :
  is_nan rate = false ->
  component_le (rateComponent (Some rate)) 30
  /\ ((rate > Fin 0)%js = false ->
      component_le (rateComponent (Some rate)) 0).
Proof.
  intros Hnan. unfold rateComponent, component_le, gtb.
  destruct rate as [| | |r]; [done| | |].
  - vm_compute. split; [discriminate | done].
  - vm_compute. split; [discriminate | intros _; discriminate].
  - cbn [ltb div mul min max]. change (Qeq_bool 5 0) with false. cbv iota.
    cbn [min max ltb mul]. q_split; cbn [mul]; split; intros; try done;
      q_props; q_arith.
Qed.

(** The condition term for given flags is finite when present, and the
    score with every term bounded stays below the bound. *)
Lemma calcSuccessPct_le now libPct_ netRate timeToComplete connectedDefenses
    conditions (q rateBound timeBound condBound : Q) (bound : Z) :
  libPct_ = Fin q -> (0 <= q <= 100)%Q ->
  component_le (rateComponent netRate) rateBound ->
  component_le (timeComponent now timeToComplete connectedDefenses)
    timeBound ->
  component_le (passComponent (pass <$> conditions)) condBound ->
  (0 <= bound)%Z ->
  (25 + rateBound + timeBound + condBound <= inject_Z bound)%Q ->
  (calcSuccessPct now libPct_ netRate timeToComplete connectedDefenses
     conditions > Fin (inject_Z bound))%js = false.
Proof.
  intros -> Hq Hrate Htime Hcond Hbound Hsum.
  rewrite calcSuccessPct_components, conditionComponent_flags.
  destruct (progress_le q Hq) as (p & -> & Hp).
  destruct (add_component_le p _ _ Hrate) as (s1 & -> & Hs1).
  destruct (add_component_le s1 _ _ Htime) as (s2 & -> & Hs2).
  destruct (add_component_le s2 _ _ Hcond) as (s3 & -> & Hs3).
  apply clamp_score_le; [done | lra].
Qed.

Lemma calcSuccessPct_nan_rate now libPct_ timeToComplete connectedDefenses
    conditions :
  calcSuccessPct now libPct_ (Some NaN) timeToComplete connectedDefenses
    conditions = NaN.
Proof.
  rewrite calcSuccessPct_components. cbn [rateComponent add_component].
  replace (_ + _ + _)%js with NaN by by destruct (Fin 0 + _)%js.
  by destruct (timeComponent _ _ _), (conditionComponent _).
Qed.

Lemma geb_false_above (score : num) (a b : Q) :
  (score > Fin a)%js = false -> (a < b)%Q -> (score >= Fin b)%js = false.
Proof.
  unfold gtb, geb. destruct score; try done. cbn [ltb leb].
  intros; q_props; lra.
Qed.

(** The rate, the time to completion and the score of a gambit, as the
    loop body computes them. *)
Lemma analyse_score snapshots now libs defs imp i lc :
  let g := analyse snapshots now libs defs imp i lc in
  exists rate,
    netRate g = Some rate
    /\ value (netRateObj g) = Some rate
    /\ timeToComplete g
       = (if (rate > Fin 0)%js
          then Some ((Fin 100 - libPct (planet lc)) / rate)%js else None)
    /\ connectedDefenses g
       = filter (fun dc => supplyLinked (planet lc) (planet dc) = true) defs
    /\ successPct g
       = calcSuccessPct now (libPct (planet lc)) (Some rate)
           (timeToComplete g) (connectedDefenses g)
           (buildConditions now lc (netRateObj g) (timeToComplete g)
              (connectedDefenses g) (playerReqs g))
    /\ risk g = toRiskLevel (successPct g).
Proof.
  intros g. subst g. unfold analyse. cbv zeta.
  set (nro := match measuredNetRate _ _ _ with
              | Some m => {| value := Some m; estimated := false |}
              | None => estimatedNetRate (planet lc)
              end).
  assert (Hvalue : exists rate, value nro = Some rate).
  { subst nro. destruct (measuredNetRate _ _ _); by eexists. }
  destruct Hvalue as (rate & Hrate). exists rate.
  cbn [netRate netRateObj timeToComplete connectedDefenses successPct risk
       playerReqs].
  rewrite Hrate. done.
Qed.

Lemma risk_at_most_risky (score : num) :
  (score > Fin 35)%js = false ->
  risk_label (toRiskLevel score) = "RISKY"%string
  \/ risk_label (toRiskLevel score) = "CRITICAL"%string.
Proof.
  intros Hle. unfold toRiskLevel.
  rewrite !(geb_false_above score 35) by done.
  destruct (score >= Fin 35)%js; auto.
Qed.

(** X11: a gambit whose net rate is not above 0 scores at most 35: it is
    rated RISKY or CRITICAL, never higher. *)
Theorem stalled_gambit_score snapshots now libs defs war :
  Forall (fun g =>
            forall rate,
              netRate g = Some rate -> (rate > Fin 0)%js = false ->
              (successPct g > Fin 35)%js = false
              /\ (risk_label (risk g) = "RISKY"%string
                  \/ risk_label (risk g) = "CRITICAL"%string))
         (detectGambits snapshots now libs defs war).
Proof.
  apply Forall_forall. intros g (i & lc & _ & ->)%elem_of_detectGambits.
  destruct (analyse_score snapshots now libs defs (impactOf war) i lc)
    as (rate & Hrate & Hvalue & Httc & _ & Hscore & Hrisk).
  intros rate' Hrate' Hpos. rewrite Hrate in Hrate'. injection Hrate' as <-.
  rewrite Hpos in Httc.
  assert (Hle : (successPct
                   (analyse snapshots now libs defs (impactOf war) i lc)
                 > Fin 35)%js = false).
  { rewrite Hscore, Httc. destruct (is_nan rate) eqn:Hnan.
    { destruct rate; try done. by rewrite calcSuccessPct_nan_rate. }
    destruct (libPct_range (planet lc)) as (q & Hq & Hrange).
    destruct (rateComponent_le rate Hnan) as [_ Hrc].
    apply (calcSuccessPct_le _ _ _ _ _ _ q 0 0 10 35); try done.
    - by apply Hrc.
    - rewrite buildConditions_flags, Hvalue, Hpos.
      destruct (libPct (planet lc) >= Fin 25)%js, (0 <? length _)%nat,
        (playerReqs _) as [reqs|]; cbn [app];
        try destruct (_ >= pr_min reqs)%js; by vm_compute. }
  split; [done|]. rewrite Hrisk. by apply risk_at_most_risky.
Qed.

Lemma stalled_gambit_score_witness :
  let g := analyse [] 0 [campaign_of (enemy_planet 21 [])] [] (impactOf None)
             0 (campaign_of (enemy_planet 21 [])) in
  (successPct g > Fin 35)%js = false
  /\ (risk_label (risk g) = "RISKY"%string
      \/ risk_label (risk g) = "CRITICAL"%string).
Proof.
  intros g.
  pose proof (stalled_gambit_score [] 0 [campaign_of (enemy_planet 21 [])]
                [] None) as Hall.
  rewrite Forall_forall in Hall.
  eapply (Hall g); [vm_compute; left | reflexivity | reflexivity].
Defined.

Lemma risk_at_most_viable (score : num) :
  (score > Fin 56)%js = false ->
  risk_label (toRiskLevel score) <> "OPTIMAL"%string
  /\ risk_label (toRiskLevel score) <> "FAVORABLE"%string.
Proof.
  intros Hle. unfold toRiskLevel.
  rewrite !(geb_false_above score 56) by done.
  by destruct (score >= Fin 55)%js, (score >= Fin 35)%js.
Qed.

Lemma completion_time_finite (q : Q) (rate : num) :
  (rate > Fin 0)%js = true -> isFinite (Fin q / rate)%js = true.
Proof.
  unfold gtb. destruct rate as [| | |r]; try done. cbn [ltb div].
  intros Hr. q_props.
  replace (Qeq_bool r 0) with false; [done|].
  symmetry. apply Qeq_bool_false. lra.
Qed.

(** X12: a gambit with a connected defense whose time to completion does
    not beat the earliest defense expiry scores at most 56: it is never
    rated FAVORABLE or OPTIMAL. *)
Theorem late_gambit_score snapshots now libs defs war :
  Forall (fun g =>
            forall t,
              connectedDefenses g <> [] ->
              timeToComplete g = Some t ->
              (t < min_list (map (defenseHours now) (connectedDefenses g)))%js
              = false ->
              (successPct g > Fin 56)%js = false
              /\ risk_label (risk g) <> "OPTIMAL"%string
              /\ risk_label (risk g) <> "FAVORABLE"%string)
         (detectGambits snapshots now libs defs war).
Proof.
  apply Forall_forall. intros g (i & lc & _ & ->)%elem_of_detectGambits.
  destruct (analyse_score snapshots now libs defs (impactOf war) i lc)
    as (rate & Hrate & Hvalue & Httc & _ & Hscore & Hrisk).
  intros t Hconn Ht Hlate.
  destruct (libPct_range (planet lc)) as (q & Hq & Hrange).
  rewrite Ht in Httc.
  destruct (rate > Fin 0)%js eqn:Hpos; [|done].
  assert (Hfin : isFinite t = true).
  { injection Httc as ->. rewrite Hq. by apply completion_time_finite. }
  clear Httc.
  assert (Hnonempty : (0 <? length (connectedDefenses
            (analyse snapshots now libs defs (impactOf war) i lc)))%nat
          = true).
  { apply Nat.ltb_lt. destruct (connectedDefenses _); [done | simpl; lia]. }
  assert (Hle : (successPct
                   (analyse snapshots now libs defs (impactOf war) i lc)
                 > Fin 56)%js = false).
  { rewrite Hscore, Ht.
    assert (Hnan : is_nan rate = false) by by destruct rate.
    destruct (rateComponent_le rate Hnan) as [Hrc _].
    apply (calcSuccessPct_le _ _ _ _ _ _ q 30 (-15) 16 56); try done.
    - unfold timeComponent. cbv beta iota zeta.
      by rewrite Hfin, Hnonempty, Hlate.
    - rewrite buildConditions_flags, Hvalue, Hnonempty. cbv beta iota.
      rewrite Hpos, Hfin, Hlate.
      destruct (libPct (planet lc) >= Fin 25)%js, (_ <= Fin 48)%js,
        (playerReqs _) as [reqs|]; cbn [app andb];
        try destruct (_ >= pr_min reqs)%js; by vm_compute. }
  split; [done|]. rewrite Hrisk. by apply risk_at_most_viable.
Qed.

Lemma late_gambit_score_witness :
  let libs := [campaign_of contested_planet] in
  let defs := [campaign_of (defended_planet 20 [] 144000000)] in
  let g := analyse [] 108000000 libs defs (impactOf None) 0
             (campaign_of contested_planet) in
  (successPct g > Fin 56)%js = false
  /\ risk_label (risk g) <> "OPTIMAL"%string
  /\ risk_label (risk g) <> "FAVORABLE"%string.
Proof.
  intros libs defs g.
  pose proof (late_gambit_score [] 108000000 libs defs None) as Hall.
  rewrite Forall_forall in Hall.
  eapply (Hall g); [vm_compute; left | done | reflexivity | reflexivity].
Defined.

End ScoreBounds.

(** ** Liberation percentage, requirements and connections *)

Section EngineDetails.
Import JsNum JsNumFacts.

(** X13: for a planet with positive [maxHealth] the liberation percentage
    is [(1 - health / maxHealth) * 100] while the health lies between 0
    and [maxHealth], 100 once the health is 0 or below, and 0 while it is
    at or above [maxHealth]; a planet with [maxHealth = 0] is at 0. *)
Theorem libPct_edges planet :
  ((maxHealth planet == 0)%Q -> libPct planet = Fin 0)
  /\ ((0 < maxHealth planet)%Q ->
      exists q,
        libPct planet = Fin q
        /\ ((health planet <= 0)%Q -> (q == 100)%Q)
        /\ ((maxHealth planet <= health planet)%Q -> (q == 0)%Q)
        /\ ((0 <= health planet <= maxHealth planet)%Q ->
            (q == (1 - health planet / maxHealth planet) * 100)%Q)).
Proof.
  unfold libPct. cbn [truthy]. split.
  - intros Hzero%Qeq_bool_iff. by rewrite Hzero.
  - intros Hmax. destruct (positive_consts _ Hmax) as (_ & _ & Hne).
    rewrite Hne. cbn [negb div]. rewrite Hne.
    assert (Hlow : (health planet <= 0 ->
                     health planet / maxHealth planet <= 0)%Q).
    { intros Hh. apply Qle_shift_div_r; [done|]. lra. }
    assert (Hhigh : (maxHealth planet <= health planet ->
                     1 <= health planet / maxHealth planet)%Q).
    { intros Hh. apply Qle_shift_div_l; [done|]. lra. }
    assert (Hmid1 : (0 <= health planet ->
                     0 <= health planet / maxHealth planet)%Q).
    { intros Hh. apply Qle_shift_div_l; [done|]. lra. }
    assert (Hmid2 : (health planet <= maxHealth planet ->
                     health planet / maxHealth planet <= 1)%Q).
    { intros Hh. apply Qle_shift_div_r; [done|]. lra. }
    revert Hlow Hhigh Hmid1 Hmid2.
    generalize (health planet / maxHealth planet)%Q as x. intros x ????.
    cbn [sub add neg mul min max ltb]. q_split; eexists; (split; [reflexivity|]);
      q_props; repeat split; intros; try lra.
    all: try (assert (x <= 0)%Q by auto; lra).
    all: try (assert (1 <= x)%Q by auto; lra).
    all: assert (0 <= x)%Q by (apply Hmid1; lra);
         assert (x <= 1)%Q by (apply Hmid2; lra); lra.
Qed.

Lemma libPct_edges_witness :
  exists q, libPct untouched_planet = Fin q /\ (q == 0)%Q.
Proof.
  destruct (libPct_edges untouched_planet) as [_ Hpos].
  destruct Hpos as (q & Hq & _ & Hfull & _); [by vm_compute|].
  exists q. split; [done|]. apply Hfull. by vm_compute.
Defined.

Lemma lookup_latest (older : list Snapshot) prev latest :
  (older ++ [prev; latest]) !! (length (older ++ [prev; latest]) - 1)%nat
  = Some latest.
Proof.
  rewrite length_app, lookup_app_r by (simpl; lia).
  by replace (length older + length [prev; latest] - 1 - length older)%nat
    with 1%nat by (simpl; lia).
Qed.

(** X14: with a measured rate and at least two snapshots, on a planet whose
    [maxHealth] is not zero, [calcPlayerRequirements] returns nothing when
    the player count of the latest snapshot (the planet's current count
    when the snapshot has none) is below 10 or the gross rate
    [measured + decay] is not positive; otherwise it returns an integer
    [min >= 1] and a [recommended >= 2 * min], not flagged as estimated. *)
Theorem measured_requirements older prev latest planet (measured : Q) imp :
  ~ (maxHealth planet == 0)%Q ->
  let snapshots := older ++ [prev; latest] in
  let count :=
    default (default 0%Q (playerCount planet))
      (snap_players latest !! index planet) in
  let decay := (regenPerSecond planet * 3600 / maxHealth planet * 100)%Q in
  let result :=
    calcPlayerRequirements snapshots planet
      {| value := Some (Fin measured); estimated := false |} imp in
  ((count < 10)%Q \/ (measured + decay <= 0)%Q -> result = None)
  /\ ((10 <= count)%Q -> (0 < measured + decay)%Q ->
      exists (a : Z) (b : Q),
        result = Some {| pr_min := Fin (inject_Z a);
                         pr_recommended := Fin b;
                         pr_estimated := false |}
        /\ (1 <= a)%Z /\ (2 * inject_Z a <= b)%Q).
Proof.
  intros Hmax%Qeq_bool_false snapshots count decay result.
  subst result. unfold calcPlayerRequirements.
  rewrite bool_decide_eq_true_2
    by (subst snapshots; rewrite length_app; simpl; lia).
  cbn [estimated value negb andb]. subst snapshots. rewrite lookup_latest.
  cbv zeta. fold count.
  unfold decayPctHr_of. cbn [mul div]. rewrite Hmax. cbn [mul].
  fold decay. cbn [ltb]. split.
  - intros [Hfew | Hgross].
    + apply Qltb_lt in Hfew. by rewrite Hfew.
    + destruct (Qltb count 10); [done|]. cbn [add leb].
      apply Qle_bool_iff in Hgross. by rewrite Hgross.
  - intros Hcount Hgross.
    apply Qltb_ge in Hcount as Hc. rewrite Hc. cbn [add leb].
    apply Qle_bool_gt in Hgross as Hg. rewrite Hg. cbn [div].
    assert (Hcne : Qeq_bool count 0 = false)
      by (apply Qeq_bool_false; lra).
    rewrite Hcne. cbn [leb].
    assert (Hrpp : (0 < (measured + decay) / count)%Q).
    { apply Qlt_shift_div_l; lra. }
    apply Qle_bool_gt in Hrpp as Hr. rewrite Hr.
    assert (Hrne : Qeq_bool ((measured + decay) / count) 0 = false)
      by (apply Qeq_bool_false; lra).
    cbn [div]. rewrite Hrne. cbn [ceil].
    generalize (Qceiling (decay / ((measured + decay) / count))) as z.
    intros z. cbn [max ltb].
    destruct (libPct_range planet) as (q & -> & _).
    cbn [sub add neg mul div]. change (Qeq_bool 24 0) with false.
    cbv iota. cbn [mul add div]. rewrite Hrne. cbn [ceil].
    match goal with
    | |- context [Qceiling ?e] => generalize (Qceiling e) as w
    end.
    intros w. destruct (Qltb 1 (inject_Z z)) eqn:Hz; q_props.
    + change 1%Q with (inject_Z 1) in Hz. rewrite <- Zlt_Qlt in Hz.
      cbn [mul max ltb]. q_split; q_props.
      * exists z. eexists. split; [reflexivity|]. split; [lia | lra].
      * exists z. eexists. split; [reflexivity|]. split; [lia | lra].
    + cbn [mul max ltb]. q_split; q_props.
      * exists 1%Z. eexists. split; [reflexivity|].
        change (inject_Z 1) with 1%Q. split; [lia | lra].
      * exists 1%Z. eexists. split; [reflexivity|].
        change (inject_Z 1) with 1%Q. split; [lia | lra].
Qed.

Lemma measured_requirements_witness :
  let latest := {| ts := 3600000; snap_health := ∅;
                   snap_players := {[ 1%Z := 20000%Q ]} |} in
  exists (a : Z) (b : Q),
    calcPlayerRequirements ([] ++ [latest; latest]) example_planet
      {| value := Some (Fin 1); estimated := false |} None
    = Some {| pr_min := Fin (inject_Z a); pr_recommended := Fin b;
              pr_estimated := false |}
    /\ (1 <= a)%Z /\ (2 * inject_Z a <= b)%Q.
Proof.
  intros latest.
  destruct (measured_requirements [] latest latest example_planet 1 None)
    as [_ Hsome]; [by vm_compute|].
  apply Hsome; by vm_compute.
Defined.

Lemma supplyLinked_sym (p q : Planet) : supplyLinked p q = supplyLinked q p.
Proof. unfold supplyLinked. apply orb_comm. Qed.

Lemma supplyLinked_spec (p q : Planet) :
  supplyLinked p q = true <->
  index q ∈ default [] (waypoints p) \/ index p ∈ default [] (waypoints q).
Proof.
  unfold supplyLinked, JsArray.includes.
  by rewrite orb_true_iff, !bool_decide_eq_true.
Qed.

(** X15: the other liberation campaigns a gambit lists as connected are
    those at another position of the array whose planet shares a supply
    line with the gambit's planet in either direction; the relation is
    mutual, and the campaign itself is never listed on account of its own
    position. *)
Theorem connectedLiberation_mutual snapshots now libs defs imp i j lci lcj :
  libs !! i = Some lci -> libs !! j = Some lcj -> i <> j ->
  let gi := analyse snapshots now libs defs imp i lci in
  let gj := analyse snapshots now libs defs imp j lcj in
  (lcj ∈ connectedLiberation gi <->
   index (planet lcj) ∈ default [] (waypoints (planet lci))
   \/ index (planet lci) ∈ default [] (waypoints (planet lcj)))
  /\ (lcj ∈ connectedLiberation gi <-> lci ∈ connectedLiberation gj)
  /\ (forall lc, lc ∈ connectedLiberation gi ->
                 exists k, k <> i /\ libs !! k = Some lc).
Proof.
  intros Hi Hj Hij gi gj.
  assert (Hin : forall a la b lb,
             libs !! a = Some la -> libs !! b = Some lb -> a <> b ->
             lb ∈ connectedLiberation
                    (analyse snapshots now libs defs imp a la) <->
             supplyLinked (planet la) (planet lb) = true).
  { intros a la b lb Ha Hb Hab. unfold analyse. cbv zeta.
    cbn [connectedLiberation].
    change (map snd ?l) with (snd <$> l).
    rewrite list_elem_of_fmap. split.
    - intros ([k lc] & -> & [[_ Hlink] _]%list_elem_of_filter). done.
    - intros Hlink. exists (b, lb). split; [done|].
      apply list_elem_of_filter. split; [simpl; split; [congruence | done]|].
      apply list_elem_of_lookup. exists b.
      by rewrite list_lookup_imap, Hb. }
  split; [|split].
  - subst gi. rewrite (Hin i lci j lcj) by done. apply supplyLinked_spec.
  - subst gi gj. rewrite (Hin i lci j lcj), (Hin j lcj i lci) by done.
    by rewrite supplyLinked_sym.
  - subst gi. unfold analyse. cbv zeta. cbn [connectedLiberation].
    intros lc. change (map snd ?l) with (snd <$> l).
    rewrite list_elem_of_fmap.
    intros ([k lc'] & -> & [[Hk _] Hlookup]%list_elem_of_filter).
    exists k. split; [done|].
    apply list_elem_of_lookup in Hlookup as (n & Hn).
    rewrite list_lookup_imap in Hn.
    destruct (libs !! n) eqn:Hlibs; [|done]. by injection Hn as -> ->.
Qed.

Lemma connectedLiberation_mutual_witness :
  let a := campaign_of contested_planet in
  let b := campaign_of (enemy_planet 20 []) in
  b ∈ connectedLiberation (analyse [] 0 [a; b] [] (impactOf None) 0%nat a)
  <-> a ∈ connectedLiberation (analyse [] 0 [a; b] [] (impactOf None) 1%nat b).
Proof.
  intros a b.
  destruct (connectedLiberation_mutual [] 0 [a; b] [] (impactOf None)
              0%nat 1%nat a b) as (_ & Hmutual & _); done.
Defined.

End EngineDetails.

(** ** Helpers of the application script *)

Section AppHelpers.
Import JsNum JsNumFacts.

(** X16: [decayRate] always returns a finite number: 0 for a planet whose
    [regenPerSecond] or [maxHealth] is 0, and otherwise
    [regenPerSecond * 3600 / maxHealth * 100], the decay term the rate
    estimator computes for that planet. *)
Theorem decayRate_finite planet :
  exists q,
    decayRate planet = Fin q
    /\ ((regenPerSecond planet == 0)%Q \/ (maxHealth planet == 0)%Q ->
        (q == 0)%Q)
    /\ (~ (maxHealth planet == 0)%Q ->
        (q == regenPerSecond planet * 3600 / maxHealth planet * 100)%Q
        /\ sameb (decayPctHr_of planet) (Fin q) = true).
Proof.
  unfold decayRate, decayPctHr_of. cbn [truthy].
  destruct (Qeq_bool (regenPerSecond planet) 0) eqn:Hregen,
           (Qeq_bool (maxHealth planet) 0) eqn:Hmax;
    cbn [negb orb mul div]; rewrite ?Hmax; cbn [mul]; q_props;
    eexists; (split; [reflexivity|]); split;
    try (intros [?|?]; done); try done; try (intros _; reflexivity).
  - intros _. split.
    + rewrite Hregen. unfold Qdiv. ring.
    + cbn [sameb]. apply Qeq_bool_iff. rewrite Hregen. unfold Qdiv. ring.
  - intros _. split; [reflexivity|]. cbn [sameb]. by apply Qeq_bool_iff.
Qed.

Lemma decayRate_finite_witness :
  exists q, decayRate example_planet = Fin q
            /\ sameb (decayPctHr_of example_planet) (Fin q) = true.
Proof.
  destruct (decayRate_finite example_planet) as (q & Hq & _ & Hagree).
  exists q. split; [done|]. by apply Hagree.
Defined.





Lemma lower_ascii_idem (c : ascii) :
  JsStr.lower_ascii (JsStr.lower_ascii c) = JsStr.lower_ascii c.
Proof. by destruct c as [[] [] [] [] [] [] [] []]. Qed.

Lemma toLowerCase_idem (s : string) :
  JsStr.toLowerCase (JsStr.toLowerCase s) = JsStr.toLowerCase s.
Proof.
  induction s as [|c s IH]; simpl; [done|].
  by rewrite lower_ascii_idem, IH.
Qed.

Lemma toLowerCase_truthy_eq (s : string) :
  JsStr.truthy (JsStr.toLowerCase s) = JsStr.truthy s.
Proof. by destruct s. Qed.

(** X18: [factionCls] answers the empty class exactly for an absent or
    empty faction and one of four classes otherwise, does not depend on
    the letter case of the name, and agrees with [factionLabel] (whatever
    the upper-casing) on the unknown and the three enemy factions. *)
Theorem factionCls_spec (toUpperCase : string -> string) faction :
  (factionCls faction = ""%string <->
   faction = None \/ faction = Some ""%string)
  /\ factionCls faction
     ∈ [""; "terminid"; "automaton"; "illuminate"; "human"]%string
  /\ factionCls (JsStr.toLowerCase <$> faction) = factionCls faction
  /\ (factionCls faction = ""%string ->
      factionLabel toUpperCase faction = "UNKNOWN"%string)
  /\ (factionCls faction = "terminid"%string ->
      factionLabel toUpperCase faction = "TERMINIDS"%string)
  /\ (factionCls faction = "automaton"%string ->
      factionLabel toUpperCase faction = "AUTOMATONS"%string)
  /\ (factionCls faction = "illuminate"%string ->
      factionLabel toUpperCase faction = "ILLUMINATE"%string).
Proof.
  destruct faction as [name|]; cbn [fmap option_fmap option_map].
  2: { repeat split; try done; auto. set_solver. }
  unfold factionCls, factionLabel. cbv zeta.
  rewrite toLowerCase_idem, toLowerCase_truthy_eq.
  destruct name as [|c name]; cbn [JsStr.truthy negb].
  { repeat split; try done; auto. set_solver. }
  generalize (JsStr.toLowerCase (String c name)) as f. intros f.
  destruct (JsStr.includes "terminid" f), (JsStr.includes "automaton" f),
    (JsStr.includes "illuminate" f);
    (repeat split; try done; try (by intros [|]); try set_solver).
Qed.

Lemma factionCls_spec_witness :
  factionLabel JsStr.toLowerCase (Some "Terminids"%string)
  = "TERMINIDS"%string.
Proof.
  destruct (factionCls_spec JsStr.toLowerCase (Some "Terminids"%string))
    as (_ & _ & _ & _ & Hterminid & _).
  by apply Hterminid.
Defined.

(** X19: the recommendation banner and the risk tier are cut at the same
    scores: whatever the score (a [NaN] included) and the planet name,
    [getRecommendation] and [toRiskLevel] answer one of the five matching
    pairs. *)
Theorem recommendation_matches_risk (score : num) (planetName : string) :
  (risk_label (toRiskLevel score),
   rec_cls (getRecommendation score planetName),
   headline (getRecommendation score planetName))
  ∈ [ ("OPTIMAL", "deploy-now", "DEPLOY IMMEDIATELY");
      ("FAVORABLE", "recommended", "GAMBIT RECOMMENDED");
      ("VIABLE", "consider", "GAMBIT POSSIBLE");
      ("RISKY", "caution", "PROCEED WITH CAUTION");
      ("CRITICAL", "not-recommended", "NOT RECOMMENDED") ]%string.
Proof.
  unfold toRiskLevel, getRecommendation.
  destruct (score >= Fin 85)%js, (score >= Fin 70)%js,
    (score >= Fin 55)%js, (score >= Fin 35)%js; cbn; set_solver.
Qed.

End AppHelpers.

(** ** What the tabs show *)

Section Shown.
Import JsNum JsNumFacts.

Lemma hasDefense_true (g : Gambit) :
  hasDefense g = true <-> (0 < length (connectedDefenses g))%nat.
Proof. unfold hasDefense. apply Nat.ltb_lt. Qed.

(** A list in which defended gambits come first is its defended part
    followed by its undefended part. *)
Lemma grouped_split (gambits : list Gambit) :
  StronglySorted grouped gambits ->
  gambits
  = filter (fun g => (0 < length (connectedDefenses g))%nat) gambits
    ++ filter (fun g => length (connectedDefenses g) = 0%nat) gambits.
Proof.
  induction 1 as [|g gambits Hsorted IH Hg]; [done|].
  rewrite !filter_cons.
  destruct (decide (0 < length (connectedDefenses g))%nat) as [Hdef|Hundef].
  - rewrite decide_False by lia. simpl. by rewrite <- IH.
  - rewrite decide_True by lia.
    assert (Hnone : filter (fun g => (0 < length (connectedDefenses g))%nat)
                      gambits = []).
    { destruct (filter _ gambits) as [|g' rest] eqn:Hfilter; [done|].
      assert (Hg' : g' ∈ filter (fun g =>
                (0 < length (connectedDefenses g))%nat) gambits)
        by (rewrite Hfilter; left).
      apply list_elem_of_filter in Hg' as [Hdef Hin].
      rewrite Forall_forall in Hg. exfalso.
      apply Hundef, hasDefense_true, (Hg g' Hin), hasDefense_true, Hdef. }
    rewrite Hnone in *. simpl in *. by rewrite <- IH.
Qed.

(** X20: the cards of the Gambit Analysis tab are the gambits of the
    detection pass in their ranked order, cut after the sixth, or after
    the last gambit with a connected defense when there are more than six
    of those: every gambit with a connected defense is shown. *)
Theorem viableGambits_prefix snapshots now libs defs war :
  let gambits := detectGambits snapshots now libs defs war in
  let defended :=
    length (filter (fun g => (0 < length (connectedDefenses g))%nat)
              gambits) in
  viableGambits gambits = take (Nat.max 6 defended) gambits
  /\ Forall (fun g => connectedDefenses g <> [] -> g ∈ viableGambits gambits)
       gambits.
Proof.
  intros gambits defended.
  pose proof (grouped_split gambits
                (detectGambits_grouped snapshots now libs defs war)) as Hsplit.
  split.
  - replace (Nat.max 6 defended) with (defended + (6 - defended))%nat by lia.
    subst defended. unfold viableGambits. cbv zeta.
    set (withDef := filter (fun g =>
           (0 < length (connectedDefenses g))%nat) gambits) in *.
    set (withoutDef := filter (fun g =>
           length (connectedDefenses g) = 0%nat) gambits) in *.
    transitivity (take (length withDef + (6 - length withDef))
                    (withDef ++ withoutDef));
      [by rewrite take_app_add | by rewrite <- Hsplit].
  - apply Forall_forall. intros g Hg Hdef. unfold viableGambits. cbv zeta.
    apply elem_of_app. left. apply list_elem_of_filter. split; [|done].
    destruct (connectedDefenses g); [done | simpl; lia].
Qed.

Lemma viableGambits_prefix_witness :
  let libs := [campaign_of contested_planet] in
  let defs := [campaign_of (defended_planet 20 [] 144000000)] in
  analyse [] 0 libs defs (impactOf None) 0 (campaign_of contested_planet)
  ∈ viableGambits (detectGambits [] 0 libs defs None).
Proof.
  intros libs defs.
  destruct (viableGambits_prefix [] 0 libs defs None) as [_ Hshown].
  rewrite Forall_forall in Hshown.
  apply Hshown; [vm_compute; left | done].
Defined.

(** X21: the Liberation tab lists the campaigns by descending player
    count and the Defense tab by ascending expiry, defenses without an
    expiry time last; both show every campaign once. *)
Theorem campaign_lists_order campaigns :
  liberationOrder campaigns ≡ₚ campaigns
  /\ StronglySorted
       (fun a b => (Fin (default 0%Q (playerCount (planet b)))
                    <= Fin (default 0%Q (playerCount (planet a))))%js = true)
       (liberationOrder campaigns)
  /\ defenseOrder campaigns ≡ₚ campaigns
  /\ StronglySorted
       (fun a b => (expiryOf a <= expiryOf b)%js = true)
       (defenseOrder campaigns).
Proof.
  split; [apply sort_perm|]. split; [|split; [apply sort_perm|]].
  - apply (sort_descending
             (fun c => Fin (default 0%Q (playerCount (planet c))))).
    by apply Forall_forall.
  - apply sort_ascending, Forall_forall. intros c _.
    apply expiryOf_orderable.
Qed.

Lemma orderable_leb_trans (x y z : num) :
  orderable x -> orderable y -> orderable z ->
  (x <= y)%js = true -> (y <= z)%js = true -> (x <= z)%js = true.
Proof.
  intros Hx Hy Hz. destruct x, y, z, Hx, Hy, Hz; try done.
  cbn [leb]. intros; q_props; lra.
Qed.

Lemma orderable_leb_total (x y : num) :
  orderable x -> orderable y ->
  (x < y)%js = false -> (y <= x)%js = true.
Proof.
  intros Hx Hy. destruct x, y, Hx, Hy; try done.
  cbn [ltb leb]. intros; q_props; lra.
Qed.

Lemma orderable_ltb_leb (x y : num) :
  orderable x -> orderable y -> (x < y)%js = true -> (x <= y)%js = true.
Proof.
  intros Hx Hy. destruct x, y, Hx, Hy; try done.
  cbn [ltb leb]. intros; q_props; lra.
Qed.

Lemma orderable_leb_refl (x : num) : orderable x -> (x <= x)%js = true.
Proof. intros Hx. destruct x, Hx; try done. cbn [leb]. q_props. lra. Qed.

Lemma reduce_most_urgent (dc : Campaign) (rest : list Campaign) :
  let chosen :=
    foldl (fun a b => if (expiryOf a < expiryOf b)%js then a else b)
          dc rest in
  chosen ∈ dc :: rest
  /\ Forall (fun c => (expiryOf chosen <= expiryOf c)%js = true) (dc :: rest).
Proof.
  revert dc. induction rest as [|b rest IH]; intros dc; simpl.
  { split; [left|]. repeat constructor.
    apply orderable_leb_refl, expiryOf_orderable. }
  destruct (IH (if (expiryOf dc < expiryOf b)%js then dc else b))
    as [Hin Hmin].
  apply Forall_cons in Hmin as [Hhead Hrest].
  set (chosen := foldl _ _ rest) in *.
  pose proof (expiryOf_orderable chosen) as Hoc.
  pose proof (expiryOf_orderable dc) as Hodc.
  pose proof (expiryOf_orderable b) as Hob.
  destruct (expiryOf dc < expiryOf b)%js eqn:Hlt.
  - split.
    + apply elem_of_cons in Hin as [-> | Hin]; [left | right; by right].
    + repeat constructor; [done| |done].
      eapply orderable_leb_trans; [..|exact Hhead|]; try done.
      by apply orderable_ltb_leb.
  - split.
    + right. done.
    + repeat constructor; [|done|done].
      eapply orderable_leb_trans; [..|exact Hhead|]; try done.
      by apply orderable_leb_total.
Qed.

Lemma defenseHours_mono now (a b : Campaign) :
  (expiryOf a <= expiryOf b)%js = true ->
  (defenseHours now a <= defenseHours now b)%js = true.
Proof.
  unfold expiryOf, defenseHours, hoursLeft, of_Z.
  destruct (event (planet a) ≫= endTime) as [ta|],
           (event (planet b) ≫= endTime) as [tb|]; try done.
  cbn [leb sub add neg div]. change (Qeq_bool 3600000 0) with false.
  cbv iota. cbn [leb]. intros; q_props. q_arith.
Qed.

Lemma defenseHours_orderable now c : orderable (defenseHours now c).
Proof. apply defenseHours_shape. Qed.

Lemma min_list_bounds (values : list num) (m : num) :
  Forall orderable values -> orderable m ->
  orderable (min_list values)
  /\ (Forall (fun x => (m <= x)%js = true) values ->
      (m <= min_list values)%js = true)
  /\ Forall (fun x => (min_list values <= x)%js = true) values.
Proof.
  intros Hvalues Hm. induction Hvalues as [|x values Hx Hvalues IH]; simpl.
  { split; [by right|]. split; [|constructor]. intros _.
    by destruct m, Hm. }
  destruct IH as (Ho & Hlower & Hupper).
  assert (Hmin : min x (min_list values)
                 = if (min_list values < x)%js then min_list values else x).
  { by destruct x, (min_list values), Hx, Ho. }
  rewrite Hmin. destruct (min_list values < x)%js eqn:Hlt.
  - split; [done|]. split.
    + intros [_ Hall]%Forall_cons. auto.
    + constructor; [by apply orderable_ltb_leb | done].
  - split; [done|]. split.
    + by intros [? _]%Forall_cons.
    + constructor; [by apply orderable_leb_refl|].
      rewrite Forall_forall in Hupper, Hvalues. apply Forall_forall.
      intros y Hy.
      apply (orderable_leb_trans x (min_list values) y); auto.
      by apply orderable_leb_total.
Qed.

Lemma orderable_leb_antisym (x y : num) :
  orderable x -> orderable y ->
  (x <= y)%js = true -> (y <= x)%js = true -> sameb x y = true.
Proof.
  intros Hx Hy. destruct x, y, Hx, Hy; try done.
  cbn [leb sameb]. intros. apply Qeq_bool_iff. q_props. lra.
Qed.

(** X22: the defense a gambit card shows as the supply line at risk is one
    of the connected defenses with the earliest expiry (a defense without
    an expiry time counting as latest), and the hours it has left are the
    minimum the conditions and the score are computed with. *)
Theorem most_urgent_defense now connectedDefenses :
  connectedDefenses <> [] ->
  exists dc,
    mostUrgentDefense connectedDefenses = Some dc
    /\ dc ∈ connectedDefenses
    /\ Forall (fun c => (expiryOf dc <= expiryOf c)%js = true)
         connectedDefenses
    /\ sameb (defenseHours now dc)
         (min_list (map (defenseHours now) connectedDefenses)) = true.
Proof.
  destruct connectedDefenses as [|first rest]; [done|]. intros _.
  destruct (reduce_most_urgent first rest) as [Hin Hmin].
  cbn [mostUrgentDefense]. eexists. split; [reflexivity|].
  set (dc := foldl _ first rest) in *. split; [done|]. split; [done|].
  set (values := map (defenseHours now) (first :: rest)).
  assert (Hvalues : Forall orderable values).
  { apply Forall_forall. intros x Hx. subst values.
    change (map ?f ?l) with (f <$> l) in Hx.
    apply list_elem_of_fmap in Hx as (c & -> & _).
    apply defenseHours_orderable. }
  destruct (min_list_bounds values (defenseHours now dc) Hvalues
              (defenseHours_orderable now dc)) as (Ho & Hlower & Hupper).
  apply orderable_leb_antisym; [apply defenseHours_orderable | done | |].
  - apply Hlower, Forall_forall. intros x Hx. subst values.
    change (map ?f ?l) with (f <$> l) in Hx.
    apply list_elem_of_fmap in Hx as (c & -> & Hc).
    rewrite Forall_forall in Hmin. by apply defenseHours_mono, Hmin.
  - rewrite Forall_forall in Hupper. apply Hupper. subst values.
    change (map ?f ?l) with (f <$> l). by apply list_elem_of_fmap_2.
Qed.

Lemma most_urgent_defense_witness :
  let early := campaign_of (defended_planet 20 [] 3600000) in
  let late := campaign_of (defended_planet 21 [] 7200000) in
  exists dc,
    mostUrgentDefense [late; early] = Some dc
    /\ dc ∈ [late; early]
    /\ Forall (fun c => (expiryOf dc <= expiryOf c)%js = true) [late; early]
    /\ sameb (defenseHours 0 dc)
         (min_list (map (defenseHours 0) [late; early])) = true.
Proof.
  intros early late. by apply (most_urgent_defense 0 [late; early]).
Defined.

End Shown.

(** ** Suggestions *)

Section Suggestions.
Import JsNum.

Lemma suggestionStep_grows now g st cond :
  exists added,
    (suggestionStep now g st cond).1 = st.1 ++ added
    /\ (length added <= if pass cond then 0 else 1)%nat.
Proof.
  destruct st as [suggestions flag]. unfold suggestionStep.
  destruct (pass cond);
    [exists []; rewrite app_nil_r; split; [done | simpl; lia]|].
  destruct (label cond); cbn [startsWith andb fst];
    repeat case_match; simplify_eq; cbn [fst];
    first [ exists []; rewrite app_nil_r; split; [done | simpl; lia]
          | eexists [_]; split; [done | simpl; lia] ].
Qed.

(** X23: [buildSuggestions] writes at most one suggestion for each failed
    condition of the gambit, so none for a gambit whose conditions all
    pass. *)
Theorem buildSuggestions_length now g :
  (length (buildSuggestions now g)
   <= length (filter (fun c => pass c = false) (conditions g)))%nat.
Proof.
  unfold buildSuggestions.
  assert (Hgen : forall conds st,
    (length (foldl (suggestionStep now g) st conds).1
     <= length st.1 + length (filter (fun c => pass c = false) conds))%nat).
  { induction conds as [|c conds IH]; intros st; [simpl; lia|].
    cbn [foldl]. etrans; [apply IH|].
    destruct (suggestionStep_grows now g st c) as (added & -> & Hadded).
    rewrite length_app. destruct (pass c) eqn:Hpass.
    - rewrite filter_cons_False by (rewrite Hpass; discriminate). lia.
    - rewrite filter_cons_True by done. simpl. lia. }
  apply (Hgen (conditions g) ([], false)).
Qed.


Lemma leb_gtb_false (r : num) : (r <= Fin 0)%js = true -> (r > Fin 0)%js = false.
Proof.
  destruct r; try done. cbn [leb gtb ltb]. intros H.
  apply JsNumFacts.Qltb_ge. by apply Qle_bool_iff in H.
Qed.

Ltac step_facts :=
  repeat split;
  first [ done
        | simpl; lia
        | by repeat constructor
        | by intros ->
        | by intros ?%elem_of_nil
        | by intros [=]%list_elem_of_singleton
        | by intros _ [? [=]]
        | intros; eexists; left
        | idtac ].

Ltac step_adds_nothing f :=
  exists []; try exists f; rewrite app_nil_r; step_facts.

Lemma step_progress_spec now g s f c :
  label c = LiberationProgress ->
  exists added,
    suggestionStep now g (s, f) c = (s ++ added, f) /\ Forall plain added.
Proof.
  intros Hl. unfold suggestionStep. rewrite Hl. cbn [startsWith andb].
  destruct (pass c); [step_adds_nothing f|].
  eexists [_]. step_facts.
Qed.

Lemma step_rate_spec now g s f c :
  label c = NetRatePositive ->
  exists added f',
    suggestionStep now g (s, f) c = (s ++ added, f')
    /\ (length added <= 1)%nat
    /\ Forall (fun x => aboutNetRate x = true
                        /\ (asksForPlayers x = true -> f' = true)) added
    /\ (f = false -> f' = true -> exists x, x ∈ added)
    /\ (pass c = false -> is_Some (netRate g) -> exists x, x ∈ added).
Proof.
  intros Hl. unfold suggestionStep. rewrite Hl. cbn [startsWith andb].
  destruct (pass c); [step_adds_nothing f|].
  destruct (playerReqs g) as [reqs|].
  - destruct (max _ _ > Fin 0)%js; [eexists [_], true | eexists [_], f];
      step_facts.
  - destruct (netRate g) as [r|]; [eexists [_], f; step_facts|].
    step_adds_nothing f.
Qed.

Lemma step_completable_spec now g s f c :
  label c = CompletableWithin48h ->
  exists added,
    suggestionStep now g (s, f) c = (s ++ added, f)
    /\ (length added <= 1)%nat
    /\ Forall (fun x => aboutNetRate x = false /\ asksForPlayers x = false)
         added
    /\ (TurnPositiveFirst ∈ added ->
        exists r, netRate g = Some r /\ (r <= Fin 0)%js = true).
Proof.
  intros Hl. unfold suggestionStep. rewrite Hl. cbn [startsWith andb].
  destruct (pass c); [step_adds_nothing f|].
  destruct (netRate g) as [r|].
  - destruct (r <= Fin 0)%js eqn:Hle.
    + eexists [_]. step_facts. eauto.
    + destruct (timeToComplete g) as [t|]; [destruct (isFinite t)|];
        first [ by eexists [_]; step_facts | step_adds_nothing f ].
  - destruct (timeToComplete g) as [t|]; [destruct (isFinite t)|];
      first [ by eexists [_]; step_facts | step_adds_nothing f ].
Qed.

Lemma step_eta_spec now g s f c :
  label c = EtaBeatsDefenseExpiry ->
  exists added,
    suggestionStep now g (s, f) c = (s ++ added, f) /\ Forall plain added.
Proof.
  intros Hl. unfold suggestionStep. rewrite Hl. cbn [startsWith andb].
  destruct (pass c); [step_adds_nothing f|].
  destruct (0 <? length (connectedDefenses g))%nat; [|step_adds_nothing f].
  destruct (isFinite (min_list _)); [|step_adds_nothing f].
  destruct (timeToComplete g) as [t|]; [destruct (isFinite t)|];
    eexists [_]; step_facts.
Qed.

Lemma step_players_spec now g s f c minimum :
  label c = PlayersAtLeastMinimum minimum ->
  exists added,
    suggestionStep now g (s, f) c = (s ++ added, f)
    /\ (length added <= 1)%nat
    /\ Forall (fun x => aboutNetRate x = false /\ x <> TurnPositiveFirst)
         added
    /\ (f = true -> added = []).
Proof.
  intros Hl. unfold suggestionStep. rewrite Hl. cbn [startsWith andb].
  destruct (pass c); [step_adds_nothing f|].
  destruct (playerReqs g) as [reqs|]; [|step_adds_nothing f].
  destruct f; [step_adds_nothing true|].
  destruct (max _ _ > Fin 0)%js; [|step_adds_nothing false].
  eexists [_]. step_facts.
Qed.

Lemma buildConditions_shape now lc nro ttc cds reqs :
  exists c1 c2 c3 c4s c5s,
    buildConditions now lc nro ttc cds reqs = [c1; c2; c3] ++ c4s ++ c5s
    /\ label c1 = LiberationProgress
    /\ label c2 = NetRatePositive
    /\ pass c2 = match value nro with
                 | Some r => (r > Fin 0)%js
                 | None => false
                 end
    /\ label c3 = CompletableWithin48h
    /\ (c4s = [] \/ exists c4, c4s = [c4] /\ label c4 = EtaBeatsDefenseExpiry)
    /\ (c5s = [] \/ exists c5 minimum,
          c5s = [c5] /\ label c5 = PlayersAtLeastMinimum minimum).
Proof.
  unfold buildConditions. cbv zeta.
  destruct (0 <? length cds)%nat, reqs as [reqs|]; cbn [app].
  - eexists _, _, _, [_], [_]. repeat split; eauto.
  - eexists _, _, _, [_], []. repeat split; eauto.
  - eexists _, _, _, [], [_]. repeat split; eauto.
  - eexists _, _, _, [], []. repeat split; eauto.
Qed.

Lemma filter_none {A} (P : A -> Prop) `{!forall x, Decision (P x)} l :
  Forall (fun x => ~ P x) l -> filter P l = [].
Proof.
  induction 1 as [|x l Hx _ IH]; [done|]. by rewrite filter_cons_False.
Qed.

Lemma suggestions_shape now' now g lc nro ttc cds reqs :
  conditions g = buildConditions now' lc nro ttc cds reqs ->
  netRate g = value nro ->
  exists a1 a2 a3 a4 a5 f2,
    buildSuggestions now g = a1 ++ a2 ++ a3 ++ a4 ++ a5
    /\ Forall plain a1
    /\ (length a2 <= 1)%nat
    /\ Forall (fun x => aboutNetRate x = true
                        /\ (asksForPlayers x = true -> f2 = true)) a2
    /\ (length a3 <= 1)%nat
    /\ Forall (fun x => aboutNetRate x = false /\ asksForPlayers x = false) a3
    /\ (TurnPositiveFirst ∈ a3 -> exists x, x ∈ a2)
    /\ Forall plain a4
    /\ (length a5 <= 1)%nat
    /\ Forall (fun x => aboutNetRate x = false /\ x <> TurnPositiveFirst) a5
    /\ (f2 = true -> a5 = []).
Proof.
  intros Hconds Hrate. unfold buildSuggestions. rewrite Hconds.
  destruct (buildConditions_shape now' lc nro ttc cds reqs)
    as (c1 & c2 & c3 & c4s & c5s & -> & Hl1 & Hl2 & Hp2 & Hl3 & H4 & H5).
  rewrite !foldl_app. cbn [foldl].
  destruct (step_progress_spec now g [] false c1 Hl1) as (a1 & -> & Ha1).
  destruct (step_rate_spec now g ([] ++ a1) false c2 Hl2)
    as (a2 & f2 & -> & Hlen2 & Ha2 & _ & Hadds).
  destruct (step_completable_spec now g (([] ++ a1) ++ a2) f2 c3 Hl3)
    as (a3 & -> & Hlen3 & Ha3 & Hturn).
  assert (Hsee : TurnPositiveFirst ∈ a3 -> exists x, x ∈ a2).
  { intros (r & Hr & Hle)%Hturn. apply Hadds.
    - rewrite Hp2, <- Hrate, Hr. by apply leb_gtb_false.
    - by rewrite Hr. }
  assert (Hfour : exists a4,
            foldl (suggestionStep now g) ((([] ++ a1) ++ a2) ++ a3, f2) c4s
            = (((([] ++ a1) ++ a2) ++ a3) ++ a4, f2) /\ Forall plain a4).
  { destruct H4 as [-> | (c4 & -> & Hl4)].
    - exists []. by rewrite app_nil_r.
    - apply (step_eta_spec now g _ f2 c4 Hl4). }
  destruct Hfour as (a4 & -> & Ha4).
  assert (Hfive : exists a5,
            foldl (suggestionStep now g)
              (((([] ++ a1) ++ a2) ++ a3) ++ a4, f2) c5s
            = ((((([] ++ a1) ++ a2) ++ a3) ++ a4) ++ a5, f2)
            /\ (length a5 <= 1)%nat
            /\ Forall (fun x => aboutNetRate x = false
                                /\ x <> TurnPositiveFirst) a5
            /\ (f2 = true -> a5 = [])).
  { destruct H5 as [-> | (c5 & minimum & -> & Hl5)].
    - exists []. rewrite app_nil_r. repeat split; try done. simpl; lia.
    - apply (step_players_spec now g _ f2 c5 minimum Hl5). }
  destruct Hfive as (a5 & -> & Hlen5 & Ha5 & Hflag).
  exists a1, a2, a3, a4, a5, f2. cbn [fst app].
  rewrite <- !app_assoc. done.
Qed.

Lemma detected_suggestions_shape snapshots now' libs defs war g now :
  g ∈ detectGambits snapshots now' libs defs war ->
  exists a1 a2 a3 a4 a5 f2,
    buildSuggestions now g = a1 ++ a2 ++ a3 ++ a4 ++ a5
    /\ Forall plain a1
    /\ (length a2 <= 1)%nat
    /\ Forall (fun x => aboutNetRate x = true
                        /\ (asksForPlayers x = true -> f2 = true)) a2
    /\ (length a3 <= 1)%nat
    /\ Forall (fun x => aboutNetRate x = false /\ asksForPlayers x = false) a3
    /\ (TurnPositiveFirst ∈ a3 -> exists x, x ∈ a2)
    /\ Forall plain a4
    /\ (length a5 <= 1)%nat
    /\ Forall (fun x => aboutNetRate x = false /\ x <> TurnPositiveFirst) a5
    /\ (f2 = true -> a5 = []).
Proof.
  intros (i & lc & _ & ->)%elem_of_detectGambits.
  by eapply suggestions_shape.
Qed.

(** X24: for a gambit of [detectGambits], whenever the suggestions tell the
    players to fix the player count deficit first (see above), a
    suggestion about the net rate does stand above it in the list. *)
Theorem turn_positive_refers_back snapshots now' libs defs war g now :
  g ∈ detectGambits snapshots now' libs defs war ->
  TurnPositiveFirst ∈ buildSuggestions now g ->
  exists pre post x,
    buildSuggestions now g = pre ++ TurnPositiveFirst :: post
    /\ x ∈ pre /\ aboutNetRate x = true.
Proof.
  intros Hg.
  destruct (detected_suggestions_shape _ _ _ _ _ _ now Hg)
    as (a1 & a2 & a3 & a4 & a5 & f2 & -> & Ha1 & _ & Ha2 & Hlen3 & _ & Hsee
        & Ha4 & _ & Ha5 & _).
  rewrite Forall_forall in Ha1. rewrite Forall_forall in Ha2.
  rewrite Forall_forall in Ha4. rewrite Forall_forall in Ha5.
  rewrite !elem_of_app. intros [H | [H | [H | [H | H]]]].
  - by destruct (Ha1 _ H) as (_ & _ & ?).
  - by destruct (Ha2 _ H) as [? _].
  - destruct (Hsee H) as [x Hx].
    destruct a3 as [|y [|]]; [by apply elem_of_nil in H | | simpl in Hlen3; lia].
    apply list_elem_of_singleton in H as <-.
    exists (a1 ++ a2), (a4 ++ a5), x. rewrite <- !app_assoc.
    split; [done|]. split; [apply elem_of_app; by right|]. by destruct (Ha2 _ Hx).
  - by destruct (Ha4 _ H) as (_ & _ & ?).
  - by destruct (Ha5 _ H) as (_ & ?).
Qed.

Lemma turn_positive_refers_back_witness :
  let libs := [campaign_of (enemy_planet 9 [])] in
  let g := analyse [] 0 libs [] (impactOf None) 0
             (campaign_of (enemy_planet 9 [])) in
  exists pre post x,
    buildSuggestions 0 g = pre ++ TurnPositiveFirst :: post
    /\ x ∈ pre /\ aboutNetRate x = true.
Proof.
  intros libs g.
  apply (turn_positive_refers_back [] 0 libs [] None g 0).
  - vm_compute. left.
  - vm_compute. right. right. left.
Defined.

(** X25: for a gambit of [detectGambits], at most one suggestion asks for a
    number of additional Helldivers: the one written for the player
    minimum is left out when the one for the net rate was written. *)
Theorem one_request_for_players snapshots now' libs defs war g now :
  g ∈ detectGambits snapshots now' libs defs war ->
  (length (filter (fun x => asksForPlayers x = true)
             (buildSuggestions now g)) <= 1)%nat.
Proof.
  intros Hg.
  destruct (detected_suggestions_shape _ _ _ _ _ _ now Hg)
    as (a1 & a2 & a3 & a4 & a5 & f2 & -> & Ha1 & Hlen2 & Ha2 & _ & Ha3 & _
        & Ha4 & Hlen5 & _ & Hflag).
  rewrite !filter_app, !length_app.
  rewrite (filter_none _ a1), (filter_none _ a3), (filter_none _ a4).
  2-4: eapply Forall_impl; [eassumption|]; intros x Hx Hasks; cbv beta in *;
       unfold plain in Hx; destruct_and?; congruence.
  destruct a2 as [|x [|]]; [| |simpl in Hlen2; lia].
  - etrans; [|exact Hlen5]. simpl. apply length_filter.
  - apply Forall_singleton in Ha2 as [_ Ha2].
    destruct (asksForPlayers x) eqn:Hx.
    + rewrite (Hflag (Ha2 eq_refl)). rewrite filter_cons_True by done.
      simpl. lia.
    + rewrite filter_cons_False by (rewrite Hx; discriminate).
      etrans; [|exact Hlen5]. simpl. apply length_filter.
Qed.

Lemma one_request_for_players_witness :
  let libs := [campaign_of (enemy_planet 9 [])] in
  let g := analyse [] 0 libs [] (impactOf None) 0
             (campaign_of (enemy_planet 9 [])) in
  (length (filter (fun x => asksForPlayers x = true)
             (buildSuggestions 0 g)) <= 1)%nat.
Proof.
  intros libs g.
  apply (one_request_for_players [] 0 libs [] None g 0).
  vm_compute. left.
Defined.

End Suggestions.
